(** * ValidKit TypeScript SDK: the request execution engine

    A shallow embedding of [src/errors.ts] (the error taxonomy) and of
    [src/client.ts] (the [ValidKit] class: request executor, response
    normaliser and batch orchestrator), followed by the properties the
    specification states about them.

    Conventions of the embedding.
    - A JavaScript [number] that the client computes with is an integer
      ([Z]); [NaN], which [parseInt] can return, is explicit in [num].
      Fractions and infinities are not represented.
    - A decoded JSON body (typed [any] in the source) is a [jsval].  The
      error payload and the rate-limit record are read at the TypeScript
      types the source declares for them.
    - A JavaScript object used as a dictionary is a [gmap string _].
    - The remote service, the clock and the timer are a transition system
      [Remote]; the client runs in a state monad over it and logs every
      [fetch], [sleep] and progress callback in a trace. *)

From stdpp Require Import base option strings gmap list numbers pretty.
From Stdlib Require Import ZArith Lia Ascii.

Set Warnings "-register-all,-clear-no-such-hyp".
Open Scope Z_scope.

(** ** JavaScript values *)

Module JS.

Inductive num :=
| Int (z : Z)
| NaN.

Inductive jsval :=
| JUndefined
| JNull
| JBool (b : bool)
| JNum (n : Z)
| JStr (s : string)
| JArr (l : list jsval)
| JObj (m : gmap string jsval).

(** ToBoolean. *)
Definition truthy (v : jsval) : bool :=
  match v with
  | JUndefined | JNull => false
  | JBool b => b
  | JNum n => negb (n =? 0)
  | JStr s => negb (String.eqb s "")
  | JArr _ | JObj _ => true
  end.

Definition truthy_str (s : string) : bool := negb (String.eqb s "").

(** [o || d] for a string that may be [undefined] or [null]. *)
Definition or_str (o : option string) (d : string) : string :=
  match o with
  | Some s => if truthy_str s then s else d
  | None => d
  end.

(** [typeof v === 'object'] *)
Definition typeof_object (v : jsval) : bool :=
  match v with
  | JNull | JArr _ | JObj _ => true
  | _ => false
  end.

(** [v.name] for a property name that is not an array index.  [None] is
    the TypeError of reading a property of [null] or [undefined].  None
    of the names the client reads is defined on a built-in prototype. *)
Definition getField (v : jsval) (name : string) : option jsval :=
  match v with
  | JUndefined | JNull => None
  | JObj m => Some (default JUndefined (m !! name))
  | _ => Some JUndefined
  end.

(** [v?.name] *)
Definition getFieldOpt (v : jsval) (name : string) : jsval :=
  default JUndefined (getField v name).

(** [v[index]] for a number [index] that is an array position. *)
Definition getIndex (v : jsval) (index : nat) : option jsval :=
  match v with
  | JUndefined | JNull => None
  | JObj m => Some (default JUndefined (m !! pretty index))
  | JArr l => Some (default JUndefined (l !! index))
  | JStr s =>
      Some (match String.get index s with
            | Some c => JStr (String c "")
            | None => JUndefined
            end)
  | _ => Some JUndefined
  end.

(** [name in v].  [None] is the TypeError raised when the right operand
    is not an object. *)
Definition hasProperty (name : string) (v : jsval) : option bool :=
  match v with
  | JObj m => Some (bool_decide (is_Some (m !! name)))
  | JArr _ => Some false
  | _ => None
  end.

(** *** parseInt with no radix argument

    The result is the integer that the digits denote.  JavaScript
    returns the nearest double, which is that integer up to [2 ^ 53]. *)

Definition isWhiteSpace (c : ascii) : bool :=
  let n := Z.of_nat (nat_of_ascii c) in
  ((9 <=? n) && (n <=? 13)) || (n =? 32) || (n =? 160).

Fixpoint trimStart (s : string) : string :=
  match s with
  | String c s' => if isWhiteSpace c then trimStart s' else s
  | EmptyString => s
  end.

Definition digitValue (c : ascii) : option Z :=
  let n := Z.of_nat (nat_of_ascii c) in
  if (48 <=? n) && (n <=? 57) then Some (n - 48)
  else if (97 <=? n) && (n <=? 122) then Some (n - 87)
  else if (65 <=? n) && (n <=? 90) then Some (n - 55)
  else None.

(** The longest prefix of radix-[R] digits, read as a number; [None]
    when that prefix is empty. *)
Fixpoint parseDigits (R : Z) (s : string) (acc : option Z) : option Z :=
  match s with
  | String c s' =>
      match digitValue c with
      | Some d =>
          if d <? R then parseDigits R s' (Some (default 0 acc * R + d))
          else acc
      | None => acc
      end
  | EmptyString => acc
  end.

Definition parseInt (input : string) : num :=
  let S0 := trimStart input in
  let '(sign, S1) :=
    match S0 with
    | String "-" r => (-1, r)
    | String "+" r => (1, r)
    | _ => (1, S0)
    end in
  let '(R, S2) :=
    match S1 with
    | String "0" (String "x" r) => (16, r)
    | String "0" (String "X" r) => (16, r)
    | _ => (10, S1)
    end in
  match parseDigits R S2 None with
  | Some n => Int (sign * n)
  | None => NaN
  end.

End JS.
Import JS.

(** ** types.ts *)

Inductive ResponseFormat :=
| FULL
| COMPACT.

Definition ResponseFormat_value (f : ResponseFormat) : string :=
  match f with
  | FULL => "full"
  | COMPACT => "compact"
  end.

Record RateLimitInfo := {
  limit : num;
  remaining : num;
  reset : num;
  retry_after : option num
}.

(** The detail map of an error, [Record<string, unknown>], seen through
    the two casts of [RateLimitError.getRetryDelay]: [retry_after as
    number] and [rate_limit as RateLimitInfo]; every other key is kept in
    [d_rest]. *)
Record Details := {
  d_retry_after : option num;
  d_rate_limit : option RateLimitInfo;
  d_rest : gmap string jsval
}.

Record ValidKitErrorDetails := {
  payload_code : option string;
  payload_message : option string;
  payload_details : option Details
}.

Record ValidKitConfig := {
  api_key : string;
  base_url : string;
  timeout : Z;
  max_retries : Z;
  default_chunk_size : Z;
  user_agent : string
}.

(** What the client reads of a fetch [Response]. *)
Inductive Body :=
| Json (data : jsval)
| NotJson (syntaxError : string).

Record Response := {
  status : Z;
  statusText : string;
  headers : gmap string string;
  json : Body
}.

(** [response.ok], as the Fetch standard defines it. *)
Definition ok (response : Response) : bool :=
  (200 <=? status response) && (status response <=? 299).

(** ** errors.ts *)

Inductive ErrorClass :=
| ValidKitErrorClass
| InvalidAPIKeyErrorClass
| RateLimitErrorClass
| BatchSizeErrorClass
| TimeoutErrorClass
| ConnectionErrorClass
| ServerErrorClass
| ValidationErrorClass
| BatchJobErrorClass.

Record ValidKitError := {
  class : ErrorClass;
  message : string;
  code : string;
  statusCode : option Z;
  details : option Details;
  rateLimit : option RateLimitInfo
}.

Definition name (e : ValidKitError) : string :=
  match class e with
  | ValidKitErrorClass => "ValidKitError"
  | InvalidAPIKeyErrorClass => "InvalidAPIKeyError"
  | RateLimitErrorClass => "RateLimitError"
  | BatchSizeErrorClass => "BatchSizeError"
  | TimeoutErrorClass => "TimeoutError"
  | ConnectionErrorClass => "ConnectionError"
  | ServerErrorClass => "ServerError"
  | ValidationErrorClass => "ValidationError"
  | BatchJobErrorClass => "BatchJobError"
  end.

Definition newValidKitError (message : string) (statusCode : option Z)
    (details : option Details) (code : string) : ValidKitError :=
  {| class := ValidKitErrorClass; message := message; code := code;
     statusCode := statusCode; details := details; rateLimit := None |}.

Definition InvalidAPIKeyError (message : string) (details : option Details) :=
  {| class := InvalidAPIKeyErrorClass; message := message;
     code := "INVALID_API_KEY"; statusCode := Some 401; details := details;
     rateLimit := None |}.

(** The constructor copies [details.rate_limit], when there is one, into
    the [rateLimit] field. *)
Definition RateLimitError (message : string) (details : option Details) :=
  {| class := RateLimitErrorClass; message := message;
     code := "RATE_LIMIT_EXCEEDED"; statusCode := Some 429; details := details;
     rateLimit := details ≫= d_rate_limit |}.

Definition BatchSizeError (message : string) (details : option Details) :=
  {| class := BatchSizeErrorClass; message := message;
     code := "BATCH_SIZE_EXCEEDED"; statusCode := Some 400; details := details;
     rateLimit := None |}.

Definition TimeoutError (message : string) (details : option Details) :=
  {| class := TimeoutErrorClass; message := message;
     code := "TIMEOUT"; statusCode := Some 408; details := details;
     rateLimit := None |}.

Definition ConnectionError (message : string) (details : option Details) :=
  {| class := ConnectionErrorClass; message := message;
     code := "CONNECTION_ERROR"; statusCode := Some 0; details := details;
     rateLimit := None |}.

Definition ServerError (message : string) (details : option Details) :=
  {| class := ServerErrorClass; message := message;
     code := "SERVER_ERROR"; statusCode := Some 500; details := details;
     rateLimit := None |}.

Definition ValidationError (message : string) (details : option Details) :=
  {| class := ValidationErrorClass; message := message;
     code := "VALIDATION_ERROR"; statusCode := Some 400; details := details;
     rateLimit := None |}.

(** [error instanceof C] for one of the subclasses. *)
Definition instanceof (e : ValidKitError) (c : ErrorClass) : bool :=
  match class e, c with
  | ValidKitErrorClass, ValidKitErrorClass
  | InvalidAPIKeyErrorClass, InvalidAPIKeyErrorClass
  | RateLimitErrorClass, RateLimitErrorClass
  | BatchSizeErrorClass, BatchSizeErrorClass
  | TimeoutErrorClass, TimeoutErrorClass
  | ConnectionErrorClass, ConnectionErrorClass
  | ServerErrorClass, ServerErrorClass
  | ValidationErrorClass, ValidationErrorClass
  | BatchJobErrorClass, BatchJobErrorClass => true
  | _, _ => false
  end.

(** [ValidKitError.fromApiResponse] *)
Definition fromApiResponse (response : Response)
    (errorData : option ValidKitErrorDetails) : ValidKitError :=
  let msg := errorData ≫= payload_message in
  let dets := errorData ≫= payload_details in
  let st := status response in
  if st =? 401 then
    InvalidAPIKeyError (or_str msg "Invalid or missing API key") dets
  else if st =? 429 then
    RateLimitError (or_str msg "Rate limit exceeded") dets
  else if st =? 400 then
    if bool_decide (errorData ≫= payload_code = Some "BATCH_SIZE_EXCEEDED") then
      BatchSizeError (or_str msg "Batch size exceeds maximum limit") dets
    else
      ValidationError
        (or_str msg (or_str (Some (statusText response)) "Validation failed"))
        dets
  else if (st =? 408) || (st =? 504) then
    TimeoutError (or_str msg "Request timed out") dets
  else if (st =? 500) || (st =? 502) then
    ServerError (or_str msg "Internal server error") dets
  else if st =? 503 then
    ServerError (or_str msg "Service temporarily unavailable") dets
  else
    let error :=
      newValidKitError
        (or_str msg
           (or_str (Some (statusText response))
              ("API request failed with status " +:+ pretty st)))
        (Some st) dets "VALIDKIT_ERROR" in
    match errorData ≫= payload_code with
    | Some c =>
        if truthy_str c then
          {| class := class error; message := message error; code := c;
             statusCode := statusCode error; details := details error;
             rateLimit := rateLimit error |}
        else error
    | None => error
    end.

(** [x] when it is a truthy number, the operand of [x * 1000]. *)
Definition truthy_value (x : option num) : option Z :=
  match x with
  | Some (Int z) => if z =? 0 then None else Some z
  | _ => None
  end.

(** [RateLimitError.getRetryDelay]; [now] is [Date.now()]. *)
Definition RateLimitError_getRetryDelay (this : ValidKitError) (now : Z) : Z :=
  let rateLimitInfo := details this ≫= d_rate_limit in
  match truthy_value (rateLimitInfo ≫= retry_after) with
  | Some s => s * 1000
  | None =>
  match truthy_value (details this ≫= d_retry_after) with
  | Some s => s * 1000
  | None =>
  match truthy_value (rateLimit this ≫= retry_after) with
  | Some s => s * 1000
  | None =>
  match truthy_value (reset <$> rateLimit this) with
  | Some r => Z.max 0 (r * 1000 - now)
  | None => 60000
  end end end end.

(** ** client.ts *)

Definition DEFAULT_TIMEOUT : Z := 30000.
Definition DEFAULT_CHUNK_SIZE : Z := 1000.
Definition MAX_BATCH_SIZE : Z := 10000.
Definition RETRY_BASE_DELAY : Z := 1000.
Definition MAX_RETRY_DELAY : Z := 30000.

(** The second argument of [fetch].  [body] is the value handed to
    [JSON.stringify]. *)
Record RequestInit := {
  method : string;
  req_headers : gmap string string;
  body : option jsval
}.

Inductive FetchResult :=
| Resolved (response : Response)
| Rejected (errName errMessage : string).

(** The world outside the client: the remote service answering [fetch],
    the timer behind [setTimeout] and the clock behind [Date.now]. *)
Record Remote := {
  Server : Type;
  fetch : string -> RequestInit -> Server -> FetchResult * Server;
  elapse : Z -> Server -> Server;
  Date_now : Server -> Z
}.

(** What a run of the client does to that world.  [Fetch] carries the
    attempt counter of the [makeRequest] invocation that issued it. *)
Inductive Event :=
| Fetch (url : string) (init : RequestInit) (retries : nat)
| Sleep (ms : Z)
| Progress (processed total : Z).

Inductive Exn :=
| Typed (error : ValidKitError)
| TypeError.

Inductive Outcome (A : Type) :=
| Returned (a : A)
| Thrown (e : Exn)
| Diverged.
Arguments Returned {A} a.
Arguments Thrown {A} e.
Arguments Diverged {A}.

(** [X-RateLimit-*] and [Retry-After]; [h !! k] is [headers.get(k)]. *)
Definition truthy_header (h : option string) : bool :=
  match h with
  | Some s => truthy_str s
  | None => false
  end.

Definition extractRateLimit (h : gmap string string) : option RateLimitInfo :=
  if truthy_header (h !! "X-RateLimit-Limit") then
    Some {| limit := parseInt (or_str (h !! "X-RateLimit-Limit") "0");
            remaining := parseInt (or_str (h !! "X-RateLimit-Remaining") "0");
            reset := parseInt (or_str (h !! "X-RateLimit-Reset") "0");
            retry_after :=
              if truthy_header (h !! "Retry-After")
              then parseInt <$> (h !! "Retry-After")
              else None |}
  else None.

(** The decoded error body at its declared type, [ValidKitErrorDetails].
    A field that is missing, or holds a value of another type than the
    declared one, reads as absent; a missing number of a [RateLimitInfo]
    reads as [NaN], which is what arithmetic makes of [undefined].  The
    source does not check the type: it uses whatever truthy value the
    body holds, so these views are exact for bodies of the declared type,
    and the properties of messages, codes and delays are about such
    bodies. *)
Definition asString (v : jsval) : option string :=
  match v with
  | JStr s => Some s
  | _ => None
  end.

Definition asNumber (v : jsval) : option num :=
  match v with
  | JNum n => Some (Int n)
  | _ => None
  end.

Definition asRateLimitInfo (v : jsval) : option RateLimitInfo :=
  match v with
  | JObj m =>
      Some {| limit := default NaN (m !! "limit" ≫= asNumber);
              remaining := default NaN (m !! "remaining" ≫= asNumber);
              reset := default NaN (m !! "reset" ≫= asNumber);
              retry_after := m !! "retry_after" ≫= asNumber |}
  | _ => None
  end.

Definition asDetails (v : jsval) : option Details :=
  match v with
  | JObj m =>
      Some {| d_retry_after := m !! "retry_after" ≫= asNumber;
              d_rate_limit := m !! "rate_limit" ≫= asRateLimitInfo;
              d_rest := delete "retry_after" (delete "rate_limit" m) |}
  | _ => None
  end.

Definition asErrorDetails (v : jsval) : ValidKitErrorDetails :=
  {| payload_code := asString (getFieldOpt v "code");
     payload_message := asString (getFieldOpt v "message");
     payload_details := asDetails (getFieldOpt v "details") |}.

(** [errorData = jsonResponse.error || jsonResponse], inside a [try] whose
    [catch] is empty. *)
Definition errorDataOf (b : Body) : option ValidKitErrorDetails :=
  match b with
  | Json jsonResponse =>
      match getField jsonResponse "error" with
      | Some e => Some (asErrorDetails (if truthy e then e else jsonResponse))
      | None => None
      end
  | NotJson _ => None
  end.

(** [(error as any).details = { ...error.details, rate_limit: rateLimit }] *)
Definition attachRateLimit (error : ValidKitError) (rl : RateLimitInfo)
    : ValidKitError :=
  {| class := class error; message := message error; code := code error;
     statusCode := statusCode error;
     details :=
       Some {| d_retry_after := details error ≫= d_retry_after;
               d_rate_limit := Some rl;
               d_rest := default ∅ (d_rest <$> details error) |};
     rateLimit := rateLimit error |}.

Section Client.

Variable R : Remote.
Variable config : ValidKitConfig.

(** *** Effects *)

Definition M (A : Type) : Type :=
  Server R -> Outcome A * Server R * list Event.

Definition ret {A} (a : A) : M A := fun s => (Returned a, s, []).

Definition bind {A B} (m : M A) (k : A -> M B) : M B :=
  fun s =>
    match m s with
    | (Returned a, s1, t1) =>
        let '(o, s2, t2) := k a s1 in (o, s2, t1 ++ t2)
    | (Thrown e, s1, t1) => (Thrown e, s1, t1)
    | (Diverged, s1, t1) => (Diverged, s1, t1)
    end.

Definition throw {A} (e : Exn) : M A := fun s => (Thrown e, s, []).

Definition diverge {A} : M A := fun s => (Diverged, s, []).

(** A JavaScript expression that may raise a TypeError. *)
Definition eval {A} (o : option A) : M A :=
  match o with
  | Some a => ret a
  | None => throw TypeError
  end.

Definition emit (e : Event) : M unit := fun s => (Returned tt, s, [e]).

Definition doFetch (url : string) (init : RequestInit) (retries : nat)
    : M FetchResult :=
  fun s =>
    let '(r, s') := fetch R url init s in
    (Returned r, s', [Fetch url init retries]).

Definition now : M Z := fun s => (Returned (Date_now R s), s, []).

(** [ValidKit.sleep] *)
Definition sleep (ms : Z) : M unit :=
  fun s => (Returned tt, elapse R ms s, [Sleep ms]).

Local Notation "x <- m ;; k" := (bind m (fun x => k))
  (at level 100, m at next level, right associativity).
Local Notation "m ;;; k" := (bind m (fun _ => k))
  (at level 100, right associativity).

Definition baseHeaders : gmap string string :=
  <["Authorization" := "Bearer " +:+ api_key config]>
  (<["Content-Type" := "application/json"]>
  (<["User-Agent" := user_agent config]>
  (<["X-SDK-Version" := "1.0.0"]>
  (<["X-SDK-Language" := "typescript"]> ∅)))).

(** [ValidKit.shouldRetry] *)
Definition shouldRetry (error : ValidKitError) (retries : nat) : bool :=
  if Z.of_nat retries >=? max_retries config then false
  else if instanceof error InvalidAPIKeyErrorClass
          || instanceof error ValidationErrorClass
          || instanceof error BatchSizeErrorClass then false
  else instanceof error RateLimitErrorClass
       || instanceof error TimeoutErrorClass
       || instanceof error ConnectionErrorClass
       || instanceof error ServerErrorClass.

(** [ValidKit.getRetryDelay]; [t] is the value of [Date.now()]. *)
Definition getRetryDelay (error : ValidKitError) (retries : nat) (t : Z) : Z :=
  if instanceof error RateLimitErrorClass then
    RateLimitError_getRetryDelay error t
  else
    Z.min (RETRY_BASE_DELAY * 2 ^ Z.of_nat retries) MAX_RETRY_DELAY.

Record ResponseData := {
  data : jsval;
  rateLimitOf : option RateLimitInfo
}.

(** [ValidKit.makeRequest].  The recursion of the source is on a counter
    that grows towards [max_retries]; [fuel] bounds its depth.  The three
    places where the source decides about a retry (after a failure
    response, in the [catch] for an abort, in the [catch] for any other
    error) run the same four statements, [retryOrThrow] here.  A typed
    error thrown in the [try] is rethrown by the [catch] untouched, and
    the promise of the recursive call is returned without being awaited,
    so its rejection bypasses the [catch]. *)
Fixpoint makeRequest_loop (fuel : nat) (endpoint : string)
    (options : RequestInit) (retries : nat) : M ResponseData :=
  match fuel with
  | O => diverge
  | S fuel' =>
      let url := base_url config +:+ endpoint in
      let retryOrThrow (error : ValidKitError) : M ResponseData :=
        if shouldRetry error retries then
          t <- now ;;
          sleep (getRetryDelay error retries t) ;;;
          makeRequest_loop fuel' endpoint options (S retries)
        else throw (Typed error) in
      result <- doFetch url options retries ;;
      match result with
      | Resolved response =>
          let rateLimit := extractRateLimit (headers response) in
          if negb (ok response) then
            let errorData := errorDataOf (json response) in
            let error := fromApiResponse response errorData in
            let error :=
              match rateLimit with
              | Some rl =>
                  if instanceof error RateLimitErrorClass
                  then attachRateLimit error rl else error
              | None => error
              end in
            retryOrThrow error
          else
            match json response with
            | Json d => ret {| data := d; rateLimitOf := rateLimit |}
            | NotJson syntaxError =>
                retryOrThrow
                  (ConnectionError ("Request failed: " +:+ syntaxError) None)
            end
      | Rejected errName errMessage =>
          if String.eqb errName "AbortError" then
            retryOrThrow
              (TimeoutError
                 ("Request timed out after " +:+ pretty (timeout config)
                    +:+ "ms") None)
          else
            retryOrThrow
              (ConnectionError ("Request failed: " +:+ errMessage) None)
      end
  end.

Definition makeRequest (endpoint : string) (options : RequestInit)
    (retries : nat) : M ResponseData :=
  makeRequest_loop
    (S (Z.to_nat (max_retries config - Z.of_nat retries)))
    endpoint options retries.

(** *** Response normalisation

    The pure part of [verifyEmail] and of [processBatchChunk]: what they
    make of [response.data].  [None] is a TypeError. *)

(** [String(v)], which turns a value into a property key. *)
Fixpoint toString (v : jsval) : string :=
  match v with
  | JUndefined => "undefined"
  | JNull => "null"
  | JBool b => if b then "true" else "false"
  | JNum n => pretty n
  | JStr s => s
  | JArr l =>
      (fix join (l : list jsval) : string :=
         match l with
         | [] => ""
         | x :: r =>
             let sx := match x with
                       | JUndefined | JNull => ""
                       | _ => toString x
                       end in
             match r with
             | [] => sx
             | _ => sx +:+ "," +:+ join r
             end
         end) l
  | JObj _ => "[object Object]"
  end.

(** [o[k] = v] on an object that an object literal has created; the maps
    hold the own properties.  The name [__proto__] is the accessor of
    [Object.prototype]: assigning to it sets the prototype of [o], or does
    nothing when [v] is a primitive, and adds no own property.  (An own
    property of that name would appear only once the prototype so
    installed is [null] or has such an own property itself; the
    properties below keep clear of the name.) *)
Definition assign (k : string) (v : jsval) (o : gmap string jsval)
    : gmap string jsval :=
  if String.eqb k "__proto__" then o else <[k := v]> o.

(** [{ ...o, ...(c && { k: v }) }] *)
Definition spreadIf (c : jsval) (k : string) (v : jsval)
    (o : gmap string jsval) : gmap string jsval :=
  if truthy c then <[k := v]> o else o.

(** The compact literal, written twice in the source: lines 126-130 with
    [result = apiResponse.result], lines 411-415 with
    [result = result.result]. *)
Definition compactResult (apiResponse result : jsval) : option jsval :=
  valid ← getField result "valid";
  disposable ← getField result "disposable";
  let trace_id := getFieldOpt apiResponse "trace_id" in
  Some (JObj (spreadIf trace_id "trace_id" trace_id
                (spreadIf (getFieldOpt disposable "value") "d" (JBool true)
                   {["v" := valid]}))).

Definition or_val (a b : jsval) : jsval := if truthy a then a else b.

(** Lines 134-149. *)
Definition fullResult (apiResponse result : jsval) : option jsval :=
  valid ← getField result "valid";
  Some (JObj (list_to_map
    [("success", getFieldOpt apiResponse "success");
     ("email", getFieldOpt apiResponse "email");
     ("valid", valid);
     ("format", getFieldOpt result "format");
     ("disposable", getFieldOpt result "disposable");
     ("mx", getFieldOpt result "mx");
     ("smtp", getFieldOpt result "smtp");
     ("processing_time_ms",
       or_val (getFieldOpt result "validation_time_ms")
              (getFieldOpt result "processing_time_ms"));
     ("timestamp", getFieldOpt apiResponse "timestamp");
     ("trace_id", getFieldOpt apiResponse "trace_id");
     ("request_id", getFieldOpt apiResponse "request_id");
     ("cached", getFieldOpt apiResponse "cached");
     ("warning", getFieldOpt apiResponse "warning");
     ("signal_pool", getFieldOpt apiResponse "signal_pool")])).

(** Lines 116-153 of [verifyEmail]. *)
Definition verifyEmail_result (format : ResponseFormat)
    (apiResponse : jsval) : option jsval :=
  hasResult ← hasProperty "result" apiResponse;
  hasEmail ← (if hasResult : bool then hasProperty "email" apiResponse
              else Some false);
  if hasResult && hasEmail then
    result ← getField apiResponse "result";
    match format with
    | COMPACT => compactResult apiResponse result
    | FULL => fullResult apiResponse result
    end
  else Some apiResponse.

(** Lines 394-398: [emails.forEach((email, index) => ...)]. *)
Fixpoint forEachEmail (apiResponse : jsval) (emails : list string)
    (index : nat) (emailResults : gmap string jsval) : gmap string jsval :=
  match emails with
  | [] => emailResults
  | email :: rest =>
      let at_index := default JUndefined (getIndex apiResponse index) in
      forEachEmail apiResponse rest (S index)
        (if truthy at_index then assign email at_index emailResults
         else emailResults)
  end.

(** Lines 418-428. *)
Definition fullBatchEntry (apiResponse result : jsval) : jsval :=
  let inner := getFieldOpt result "result" in
  JObj (list_to_map
    [("success", getFieldOpt result "success");
     ("email", getFieldOpt result "email");
     ("valid", getFieldOpt inner "valid");
     ("format", getFieldOpt inner "format");
     ("disposable", getFieldOpt inner "disposable");
     ("mx", getFieldOpt inner "mx");
     ("smtp", getFieldOpt inner "smtp");
     ("trace_id", getFieldOpt apiResponse "trace_id");
     ("request_id", getFieldOpt apiResponse "request_id")]).

(** Lines 407-431: [apiResponse.results.forEach((result) => ...)]. *)
Fixpoint forEachResult (format : ResponseFormat) (apiResponse : jsval)
    (results : list jsval) (emailResults : gmap string jsval)
    : option (gmap string jsval) :=
  match results with
  | [] => Some emailResults
  | result :: rest =>
      email ← getField result "email";
      let inner := getFieldOpt result "result" in
      if truthy email && truthy inner then
        entry ← match format with
                | COMPACT => compactResult apiResponse inner
                | FULL => Some (fullBatchEntry apiResponse result)
                end;
        forEachResult format apiResponse rest
          (assign (toString email) entry emailResults)
      else forEachResult format apiResponse rest emailResults
  end.

(** Lines 387-436 of [processBatchChunk]. *)
Definition processBatchChunk_result (emails : list string)
    (format : ResponseFormat) (apiResponse : jsval) : option jsval :=
  indexed ← match format with
            | COMPACT =>
                if typeof_object apiResponse
                then negb <$> hasProperty "results" apiResponse
                else Some false
            | FULL => Some false
            end;
  if indexed : bool then
    Some (JObj (forEachEmail apiResponse emails 0 ∅))
  else
    hasResults ← hasProperty "results" apiResponse;
    match (if hasResults : bool then getFieldOpt apiResponse "results"
           else JUndefined) with
    | JArr results => JObj <$> forEachResult format apiResponse results ∅
    | _ => Some apiResponse
    end.

(** *** Operations *)

Record VerifyEmailOptions := {
  email_format : option ResponseFormat;
  email_trace_id : option string;
  email_parent_id : option string;
  email_debug : option bool;
  email_share_signals : option bool
}.

(** [progress_callback] tells whether the caller supplied one; calling it
    is recorded as a [Progress] event. *)
Record VerifyBatchOptions := {
  batch_format : option ResponseFormat;
  batch_chunk_size : option Z;
  progress_callback : bool;
  batch_trace_id : option string;
  batch_parent_id : option string;
  batch_debug : option bool;
  batch_share_signals : option bool
}.

(** [{ ...this.baseHeaders }] with the two tracing headers. *)
Definition requestHeaders (trace_id parent_id : option string)
    : gmap string string :=
  let h := baseHeaders in
  let h := if truthy_header trace_id
           then <["X-Trace-ID" := default "" trace_id]> h else h in
  if truthy_header parent_id
  then <["X-Parent-ID" := default "" parent_id]> h else h.

(** [...(share_signals !== undefined && { share_signals })] *)
Definition spreadShareSignals (share_signals : option bool)
    (o : gmap string jsval) : gmap string jsval :=
  match share_signals with
  | Some b => <["share_signals" := JBool b]> o
  | None => o
  end.

(** [ValidKit.verifyEmail] *)
Definition verifyEmailRequest (email : string) (options : VerifyEmailOptions)
    : RequestInit :=
  {| method := "POST";
     req_headers :=
       requestHeaders (email_trace_id options) (email_parent_id options);
     body :=
       Some (JObj (spreadShareSignals (email_share_signals options)
                     (<["email" := JStr email]>
                     (<["format" :=
                          JStr (ResponseFormat_value
                                  (default FULL (email_format options)))]>
                     (<["debug" :=
                          JBool (default false (email_debug options))]> ∅))))) |}.

Definition verifyEmail (email : string) (options : VerifyEmailOptions)
    : M jsval :=
  if negb (truthy_str email) then
    throw (Typed (ValidationError "Email must be a non-empty string" None))
  else
    let format := default FULL (email_format options) in
    response <-
      makeRequest "/api/v1/verify" (verifyEmailRequest email options) 0 ;;
    eval (verifyEmail_result format (data response)).

(** [ValidKit.processBatchChunk] *)
Definition chunkRequest (emails : list string) (format : ResponseFormat)
    (trace_id parent_id : option string) (debug : bool)
    (share_signals : option bool) : RequestInit :=
  {| method := "POST";
     req_headers := requestHeaders trace_id parent_id;
     body :=
       Some (JObj (spreadShareSignals share_signals
                     (<["emails" := JArr (JStr <$> emails)]>
                     (<["format" := JStr (ResponseFormat_value format)]>
                     (<["debug" := JBool debug]> ∅))))) |}.

Definition processBatchChunk (emails : list string) (format : ResponseFormat)
    (trace_id parent_id : option string) (debug : bool)
    (share_signals : option bool) : M jsval :=
  response <-
    makeRequest "/api/v1/verify/bulk"
      (chunkRequest emails format trace_id parent_id debug share_signals) 0 ;;
  eval (processBatchChunk_result emails format (data response)).

(** [array.slice(start, stop)] *)
Definition slice {A} (array : list A) (start stop : Z) : list A :=
  let len := Z.of_nat (length array) in
  let k := if start <? 0 then Z.max (len + start) 0 else Z.min start len in
  let final := if stop <? 0 then Z.max (len + stop) 0 else Z.min stop len in
  take (Z.to_nat (final - k)) (drop (Z.to_nat k) array).

(** [ValidKit.chunkArray].  The loop runs while [i < array.length] and adds
    [chunkSize] to [i]; with a positive [chunkSize] it ends within
    [array.length] rounds, which is the fuel given to it.  [None]: the
    loop did not end, which is the case of a [chunkSize] that is not
    positive on an array that is not empty. *)
Fixpoint chunkArray_loop {A} (fuel : nat) (array : list A) (chunkSize i : Z)
    : option (list (list A)) :=
  if i <? Z.of_nat (length array) then
    match fuel with
    | O => None
    | S fuel' =>
        (slice array i (i + chunkSize) ::.)
          <$> chunkArray_loop fuel' array chunkSize (i + chunkSize)
    end
  else Some [].

Definition chunkArray {A} (array : list A) (chunkSize : Z)
    : option (list (list A)) :=
  chunkArray_loop (length array) array chunkSize 0.

(** [Object.assign(results, chunkResults)] for the values that
    [processBatchChunk] returns: either the map it built or, as a
    fallback, the raw body, an object or an array.  Each own property of
    the source is assigned to [results] as by [assign], so a [__proto__]
    of a raw body adds no property. *)
Definition objectAssign (results : gmap string jsval) (source : jsval)
    : gmap string jsval :=
  match source with
  | JObj m => delete "__proto__" m ∪ results
  | JArr l =>
      list_to_map (imap (fun i v => (pretty i, v)) l) ∪ results
  | _ => results
  end.

(** Lines 196-204: [for (const chunk of chunks) ...]. *)
Fixpoint forEachChunk (chunks : list (list string)) (total : Z)
    (format : ResponseFormat) (options : VerifyBatchOptions)
    (results : gmap string jsval) (processed : Z)
    : M (gmap string jsval) :=
  match chunks with
  | [] => ret results
  | chunk :: rest =>
      chunkResults <-
        processBatchChunk chunk format (batch_trace_id options)
          (batch_parent_id options) (default false (batch_debug options))
          (batch_share_signals options) ;;
      let results := objectAssign results chunkResults in
      let processed := processed + Z.of_nat (length chunk) in
      (if progress_callback options then emit (Progress processed total)
       else ret tt) ;;;
      forEachChunk rest total format options results processed
  end.

(** [ValidKit.verifyBatch].  [emails = None] is an argument that is not
    an array. *)
Definition verifyBatch (emails : option (list string))
    (options : VerifyBatchOptions) : M jsval :=
  match emails with
  | None =>
      throw (Typed (ValidationError "Emails must be a non-empty array" None))
  | Some emails =>
      if Z.of_nat (length emails) =? 0 then
        throw (Typed (ValidationError "Emails must be a non-empty array" None))
      else if Z.of_nat (length emails) >? MAX_BATCH_SIZE then
        throw (Typed (BatchSizeError
          ("Batch size cannot exceed " +:+ pretty MAX_BATCH_SIZE
             +:+ " emails. Use verifyBatchAsync for larger batches.") None))
      else
        let format := default COMPACT (batch_format options) in
        let chunk_size :=
          default (default_chunk_size config) (batch_chunk_size options) in
        if Z.of_nat (length emails) <=? chunk_size then
          processBatchChunk emails format (batch_trace_id options)
            (batch_parent_id options) (default false (batch_debug options))
            (batch_share_signals options)
        else
          match chunkArray emails chunk_size with
          | None => diverge
          | Some chunks =>
              results <-
                forEachChunk chunks (Z.of_nat (length emails)) format
                  options ∅ 0 ;;
              ret (JObj results)
          end
  end.

(** [ValidKit.verifyBatchAgent]: one request, no ceiling, no chunking. *)
Definition agentRequest (emails : list string) (options : VerifyBatchOptions)
    : RequestInit :=
  {| method := "POST";
     req_headers :=
       requestHeaders (batch_trace_id options) (batch_parent_id options);
     body :=
       Some (JObj (spreadShareSignals (batch_share_signals options)
                     (<["emails" := JArr (JStr <$> emails)]>
                     (<["format" :=
                          JStr (ResponseFormat_value
                                  (default COMPACT (batch_format options)))]>
                        ∅)))) |}.

Definition verifyBatchAgent (emails : option (list string))
    (options : VerifyBatchOptions) : M jsval :=
  match emails with
  | None =>
      throw (Typed (ValidationError "Emails must be a non-empty array" None))
  | Some emails =>
      if Z.of_nat (length emails) =? 0 then
        throw (Typed (ValidationError "Emails must be a non-empty array" None))
      else
        response <-
          makeRequest "/api/v1/verify/bulk/agent"
            (agentRequest emails options) 0 ;;
        ret (data response)
  end.

Record VerifyBatchAsyncOptions := {
  async_format : option ResponseFormat;
  async_webhook_url : option string;
  async_trace_id : option string;
  async_parent_id : option string
}.

(** [ValidKit.verifyBatchAsync].  A [webhook_url] that was not given is in
    the object as [undefined]. *)
Definition asyncRequest (emails : list string)
    (options : VerifyBatchAsyncOptions) : RequestInit :=
  {| method := "POST";
     req_headers :=
       requestHeaders (async_trace_id options) (async_parent_id options);
     body :=
       Some (JObj (<["emails" := JArr (JStr <$> emails)]>
                  (<["format" :=
                       JStr (ResponseFormat_value
                               (default COMPACT (async_format options)))]>
                  (<["webhook_url" :=
                       match async_webhook_url options with
                       | Some u => JStr u
                       | None => JUndefined
                       end]>
                  (<["async" := JBool true]> ∅))))) |}.

Definition verifyBatchAsync (emails : option (list string))
    (options : VerifyBatchAsyncOptions) : M jsval :=
  match emails with
  | None =>
      throw (Typed (ValidationError "Emails must be a non-empty array" None))
  | Some emails =>
      if Z.of_nat (length emails) =? 0 then
        throw (Typed (ValidationError "Emails must be a non-empty array" None))
      else
        response <-
          makeRequest "/api/v1/verify/bulk/agent"
            (asyncRequest emails options) 0 ;;
        ret (data response)
  end.

(** The three job operations share their shape: a check of the job
    id, one request with the base headers and no body, and the data of
    the response as it is. *)
Definition jobRequest (method : string) : RequestInit :=
  {| method := method; req_headers := baseHeaders; body := None |}.

(** [ValidKit.getBatchJob] *)
Definition getBatchJob (jobId : string) : M jsval :=
  if negb (truthy_str jobId) then
    throw (Typed (ValidationError "Job ID is required" None))
  else
    response <-
      makeRequest ("/api/v1/batch/" +:+ jobId) (jobRequest "GET") 0 ;;
    ret (data response).

(** [ValidKit.getBatchResults] *)
Definition getBatchResults (jobId : string) : M jsval :=
  if negb (truthy_str jobId) then
    throw (Typed (ValidationError "Job ID is required" None))
  else
    response <-
      makeRequest ("/api/v1/batch/" +:+ jobId +:+ "/results")
        (jobRequest "GET") 0 ;;
    ret (data response).

(** [ValidKit.cancelBatchJob] *)
Definition cancelBatchJob (jobId : string) : M jsval :=
  if negb (truthy_str jobId) then
    throw (Typed (ValidationError "Job ID is required" None))
  else
    response <-
      makeRequest ("/api/v1/batch/" +:+ jobId) (jobRequest "DELETE") 0 ;;
    ret (data response).

End Client.

(** The argument of the constructor: [ValidKitConfig] of [types.ts], all
    fields but the key optional. *)
Record ValidKitOptions := {
  opt_api_key : string;
  opt_base_url : option string;
  opt_timeout : option Z;
  opt_max_retries : option Z;
  opt_default_chunk_size : option Z;
  opt_user_agent : option string
}.

(** [o || d] for a number that may be [undefined]. *)
Definition or_num (o : option Z) (d : Z) : Z :=
  match o with
  | Some z => if z =? 0 then d else z
  | None => d
  end.

(** The constructor of [ValidKit]: the configuration it stores, or the
    error it throws. *)
Definition newValidKit (config : ValidKitOptions)
    : ValidKitError + ValidKitConfig :=
  if negb (truthy_str (opt_api_key config)) then
    inl (InvalidAPIKeyError "API key is required" None)
  else
    inr {| api_key := opt_api_key config;
           base_url := or_str (opt_base_url config) "https://api.validkit.com";
           timeout := or_num (opt_timeout config) DEFAULT_TIMEOUT;
           max_retries := or_num (opt_max_retries config) 3;
           default_chunk_size :=
             or_num (opt_default_chunk_size config) DEFAULT_CHUNK_SIZE;
           user_agent :=
             or_str (opt_user_agent config)
               "ValidKit TypeScript SDK/1.0.0 (AI Agent Optimized)" |}.

Arguments ret {R A} a.
Arguments bind {R A B} m k.
Arguments throw {R A} e.

(** ** Vocabulary of the properties *)

(** How one attempt of [makeRequest] ends before any decision about a
    retry: with the data it returns or with the typed error it has built
    (lines 452-482, 494-495, 505 and 515 of the client). *)
Definition attempt (config : ValidKitConfig) (result : FetchResult)
    : ValidKitError + ResponseData :=
  match result with
  | Resolved response =>
      let rateLimit := extractRateLimit (headers response) in
      if ok response then
        match json response with
        | Json d => inr {| data := d; rateLimitOf := rateLimit |}
        | NotJson syntaxError =>
            inl (ConnectionError ("Request failed: " +:+ syntaxError) None)
        end
      else
        let error := fromApiResponse response (errorDataOf (json response)) in
        inl (match rateLimit with
             | Some rl =>
                 if instanceof error RateLimitErrorClass
                 then attachRateLimit error rl else error
             | None => error
             end)
  | Rejected errName errMessage =>
      if String.eqb errName "AbortError" then
        inl (TimeoutError
               ("Request timed out after " +:+ pretty (timeout config) +:+ "ms")
               None)
      else inl (ConnectionError ("Request failed: " +:+ errMessage) None)
  end.

Definition is_fetch (e : Event) : bool :=
  match e with
  | Fetch _ _ _ => true
  | _ => false
  end.

(** The number of HTTP calls in a trace. *)
Definition fetches (t : list Event) : nat := length (filter is_fetch t).

(** The events that mark the progress of a batch: the first attempt of
    every request handed to the executor, and the progress callbacks. *)
Definition is_milestone (e : Event) : bool :=
  match e with
  | Fetch _ _ O => true
  | Progress _ _ => true
  | _ => false
  end.

Definition milestones (t : list Event) : list Event := filter is_milestone t.

Definition is_progress (e : Event) : bool :=
  match e with
  | Progress _ _ => true
  | _ => false
  end.

(** The number of calls of the progress callback in a trace. *)
Definition progress_calls (t : list Event) : nat :=
  length (filter is_progress t).

(** The retryable classes of the specification. *)
Definition retryable (c : ErrorClass) : bool :=
  match c with
  | RateLimitErrorClass | TimeoutErrorClass
  | ConnectionErrorClass | ServerErrorClass => true
  | _ => false
  end.

(** A remote that answers from a script, one entry per [fetch], and whose
    clock advances by the time slept. *)
Definition scripted : Remote :=
  {| Server := list FetchResult * Z;
     fetch := fun _ _ s =>
       match s.1 with
       | r :: rest => (r, (rest, s.2))
       | [] => (Rejected "TypeError" "Failed to fetch", s)
       end;
     elapse := fun ms s => (s.1, s.2 + Z.max 0 ms);
     Date_now := snd |}.

Definition defaultConfig : ValidKitConfig :=
  {| api_key := "test_api_key";
     base_url := "https://api.validkit.com";
     timeout := DEFAULT_TIMEOUT;
     max_retries := 3;
     default_chunk_size := DEFAULT_CHUNK_SIZE;
     user_agent := "ValidKit TypeScript SDK/1.0.0 (AI Agent Optimized)" |}.

Definition noBatchOptions : VerifyBatchOptions :=
  {| batch_format := None; batch_chunk_size := None;
     progress_callback := false; batch_trace_id := None;
     batch_parent_id := None; batch_debug := None;
     batch_share_signals := None |}.

(** The retry delay of a rate-limited error in the order in which the
    specification lists its sources: the explicit retry-after of the detail
    map, then the retry-after of the Rate Limit Info attached to it, then
    the time left until its reset, then one minute. *)
Definition spec_rateLimitDelay (error : ValidKitError) (t : Z) : Z :=
  let attached := details error ≫= d_rate_limit in
  match truthy_value (details error ≫= d_retry_after) with
  | Some s => s * 1000
  | None =>
  match truthy_value (attached ≫= retry_after) with
  | Some s => s * 1000
  | None =>
  match truthy_value (reset <$> attached) with
  | Some r => Z.max 0 (r * 1000 - t)
  | None => 60000
  end end end.

Definition sample_request : RequestInit :=
  {| method := "GET"; req_headers := ∅; body := None |}.

Definition sample_401 : FetchResult :=
  Resolved {| status := 401; statusText := "Unauthorized"; headers := ∅;
              json := Json (JObj {["message" := JStr "Invalid API key"]}) |}.

(** A 429 whose headers say to retry after 30 seconds and whose body says
    to retry after 5. *)
Definition sample_429 : FetchResult :=
  Resolved
    {| status := 429; statusText := "Too Many Requests";
       headers := <["X-RateLimit-Limit" := "100"]> {["Retry-After" := "30"]};
       json :=
         Json (JObj {["error" :=
           JObj (<["message" := JStr "Rate limited"]>
                   {["details" := JObj {["retry_after" := JNum 5]}]})]}) |}.

Definition sample_418 : Response :=
  {| status := 418; statusText := ""; headers := ∅;
     json := NotJson "Unexpected token < in JSON at position 0" |}.

(** An event of a request whose attempt counter started at [r] or above:
    a fetch numbered from [r] on, or a sleep. *)
Definition from_attempt (r : nat) (e : Event) : Prop :=
  match e with
  | Fetch _ _ k => (r <= k)%nat
  | Sleep _ => True
  | Progress _ _ => False
  end.

(** [ceil (n / c)] *)
Definition ceil_div (n c : Z) : Z := (n + c - 1) / c.

(** The [k]-th of the consecutive slices of [c] elements of [array]. *)
Definition spec_chunk {A} (array : list A) (c k : nat) : list A :=
  take c (drop (k * c) array).

(** What a batch over [chunks] shows of its progress, [processed] emails
    having been counted before: per chunk, the first attempt of its
    request and then, when there is a callback, the call of it. *)
Fixpoint chunk_milestones (url : string) (request : list string -> RequestInit)
    (callback : bool) (total : Z) (chunks : list (list string))
    (processed : Z) : list Event :=
  match chunks with
  | [] => []
  | chunk :: rest =>
      let processed := processed + Z.of_nat (length chunk) in
      Fetch url (request chunk) 0
        :: (if callback then [Progress processed total] else [])
        ++ chunk_milestones url request callback total rest processed
  end.

(** The number of slices of [c] elements that cover [m] elements. *)
Definition chunk_count (m c : nat) : nat :=
  Z.to_nat (ceil_div (Z.of_nat m) (Z.of_nat c)).

(** The consecutive slices of [c] elements of [array] from position [j]
    on. *)
Definition chunks_from {A} (array : list A) (c j : nat) : list (list A) :=
  (fun k => take c (drop (j + k * c) array))
    <$> seq 0 (chunk_count (length array - j) c).

Definition ok_json (d : jsval) : FetchResult :=
  Resolved {| status := 200; statusText := "OK"; headers := ∅; json := Json d |}.

(** [{ "0": first, "1": second, ... }] *)
Definition indexed (values : list jsval) : jsval :=
  JObj (list_to_map (imap (fun i v => (pretty i, v)) values)).

Definition compact_valid : jsval := JObj {["v" := JBool true]}.

Definition three_emails : list string :=
  ["ada@example.com"; "bob@example.com"; "cyd@example.com"].

Definition chunks_of_two : VerifyBatchOptions :=
  {| batch_format := None; batch_chunk_size := Some 2;
     progress_callback := true; batch_trace_id := None;
     batch_parent_id := None; batch_debug := None;
     batch_share_signals := None |}.

Definition compactOptions : VerifyEmailOptions :=
  {| email_format := Some COMPACT; email_trace_id := None;
     email_parent_id := None; email_debug := None;
     email_share_signals := None |}.

(** A single-verify body that reports a disposable address but does not
    echo the email. *)
Definition disposable_without_email : jsval :=
  JObj (<["success" := JBool true]>
       {["result" :=
           JObj (<["valid" := JBool true]>
                {["disposable" :=
                    JObj (<["valid" := JBool true]>
                            {["value" := JBool true]})]})]}).

(** A single-verify body that is already compact. *)
Definition compact_with_reason : jsval :=
  JObj (<["v" := JBool false]> {["r" := JStr "invalid_format"]}).

Definition disposable_result : jsval :=
  JObj (<["valid" := JBool true]>
       {["disposable" :=
           JObj (<["valid" := JBool true]> {["value" := JBool true]})]}).

Definition disposable_body : gmap string jsval :=
  <["success" := JBool true]>
  (<["email" := JStr "ada@tempmail.com"]> {["result" := disposable_result]}).

(** Rate-limit headers whose remaining quota is not a number. *)
Definition headers_unparsable : gmap string string :=
  <["X-RateLimit-Limit" := "100"]> {["X-RateLimit-Remaining" := "unknown"]}.

Definition headers_full : gmap string string :=
  <["X-RateLimit-Limit" := "1000"]>
  (<["X-RateLimit-Remaining" := "0"]>
  (<["X-RateLimit-Reset" := "1642000000"]> {["Retry-After" := "60"]})).

(** An entry of an enveloped list that echoes [email] and carries its
    result. *)
Definition echoes (email : string) (entry : jsval) : Prop :=
  email <> ""
  /\ exists fields inner,
       entry = JObj fields
       /\ fields !! "email" = Some (JStr email)
       /\ fields !! "result" = Some inner
       /\ truthy inner = true.

Definition too_many_emails : list string :=
  replicate (Z.to_nat 10001) "ada@example.com".

(** A 204, which is a success with an empty body. *)
Definition no_content : Response :=
  {| status := 204; statusText := "No Content"; headers := ∅;
     json := NotJson "Unexpected end of JSON input" |}.

Definition one_retry : ValidKitConfig :=
  {| api_key := "test_api_key";
     base_url := "https://api.validkit.com";
     timeout := DEFAULT_TIMEOUT;
     max_retries := 1;
     default_chunk_size := DEFAULT_CHUNK_SIZE;
     user_agent := "ValidKit TypeScript SDK/1.0.0 (AI Agent Optimized)" |}.

(** Bodies and responses of the repository's test suite. *)
Definition test_verify_body : jsval :=
  JObj (<["success" := JBool true]>
       (<["email" := JStr "test@example.com"]>
       (<["trace_id" := JStr "trace_123"]>
       {["result" :=
           JObj (<["valid" := JBool true]>
                (<["format" := JObj {["valid" := JBool true]}]>
                (<["disposable" :=
                     JObj (<["valid" := JBool true]>
                             {["value" := JBool false]})]>
                {["mx" := JObj (<["valid" := JBool true]>
                                  {["records" := JArr []]})]})))]}))).

Definition test_batch_body : jsval :=
  indexed [compact_valid;
           JObj (<["v" := JBool false]> {["r" := JStr "invalid format"]})].

Definition test_429 : FetchResult :=
  Resolved {| status := 429; statusText := "Too Many Requests"; headers := ∅;
              json := Json (JObj {["message" := JStr "Rate limited"]}) |}.

Definition test_network_error : FetchResult :=
  Rejected "Error" "Network error".

Definition ten_retries : ValidKitConfig :=
  {| api_key := "test_api_key";
     base_url := "https://api.validkit.com";
     timeout := DEFAULT_TIMEOUT;
     max_retries := 10;
     default_chunk_size := DEFAULT_CHUNK_SIZE;
     user_agent := "ValidKit TypeScript SDK/1.0.0 (AI Agent Optimized)" |}.

Definition sleeps (t : list Event) : list Z :=
  omap (fun e => match e with Sleep ms => Some ms | _ => None end) t.

(** The trace of a request that slept [delays] between its attempts:
    fetch, sleep, fetch, ..., fetch, the attempts numbered from
    [retries] on. *)
Fixpoint attempts_trace (url : string) (options : RequestInit) (retries : nat)
    (delays : list Z) : list Event :=
  match delays with
  | [] => [Fetch url options retries]
  | d :: ds =>
      Fetch url options retries :: Sleep d
        :: attempts_trace url options (S retries) ds
  end.

(** The exponential backoff before retry [k]. *)
Definition backoff (k : nat) : Z :=
  Z.min (RETRY_BASE_DELAY * 2 ^ Z.of_nat k) MAX_RETRY_DELAY.

(** The class that [fromApiResponse] gives to a status; [batch] tells
    whether the payload's code is BATCH_SIZE_EXCEEDED. *)
Definition status_class (st : Z) (batch : bool) : ErrorClass :=
  if st =? 401 then InvalidAPIKeyErrorClass
  else if st =? 429 then RateLimitErrorClass
  else if st =? 400 then
    if batch then BatchSizeErrorClass else ValidationErrorClass
  else if (st =? 408) || (st =? 504) then TimeoutErrorClass
  else if (st =? 500) || (st =? 502) || (st =? 503) then ServerErrorClass
  else ValidKitErrorClass.


Definition sum_list (l : list Z) : Z := foldr Z.add 0 l.


(** A remote that cannot be reached: every fetch is rejected. *)
Definition unreachable : Remote :=
  {| Server := Z;
     fetch := fun _ _ s => (Rejected "TypeError" "Failed to fetch", s);
     elapse := fun ms s => s + Z.max 0 ms;
     Date_now := fun s => s |}.

(** Two 429 responses that differ in their reset header only. *)
Definition limited_until (resetAt : string) : Response :=
  {| status := 429; statusText := "Too Many Requests";
     headers :=
       <["X-RateLimit-Limit" := "100"]> {["X-RateLimit-Reset" := resetAt]};
     json := Json (JObj {["message" := JStr "Rate limited"]}) |}.


(** The status code that the constructor of a class stores. *)
Definition class_statusCode (c : ErrorClass) (st : Z) : Z :=
  match c with
  | InvalidAPIKeyErrorClass => 401
  | RateLimitErrorClass => 429
  | BatchSizeErrorClass | ValidationErrorClass => 400
  | TimeoutErrorClass => 408
  | ConnectionErrorClass => 0
  | ServerErrorClass | BatchJobErrorClass => 500
  | ValidKitErrorClass => st
  end.

Definition gateway_timeout : Response :=
  {| status := 504; statusText := "Gateway Timeout"; headers := ∅;
     json := Json (JObj {["message" := JStr ""]}) |}.

Definition zero_retries : ValidKitOptions :=
  {| opt_api_key := "test_api_key"; opt_base_url := None;
     opt_timeout := None; opt_max_retries := Some 0;
     opt_default_chunk_size := None; opt_user_agent := None |}.

(** What an operation that returns [response.data] as it is makes of the
    run of its one request. *)
Definition passes_data {S : Type}
    (run : Outcome ResponseData * S * list Event)
    : Outcome jsval * S * list Event :=
  let '(o, s', t) := run in
  (match o with
   | Returned response => Returned (data response)
   | Thrown e => Thrown e
   | Diverged => Diverged
   end, s', t).

Definition noAsyncOptions : VerifyBatchAsyncOptions :=
  {| async_format := None; async_webhook_url := None;
     async_trace_id := None; async_parent_id := None |}.

(** [v == null] *)
Definition nullish (v : jsval) : bool :=
  match v with
  | JUndefined | JNull => true
  | _ => false
  end.

(** The bodies of which [verifyEmail] can make nothing: a primitive or
    [null], or an object with an [email] whose [result] is [null]. *)
Definition unusable_body (v : jsval) : bool :=
  match v with
  | JArr _ => false
  | JObj m =>
      match m !! "email", m !! "result" with
      | Some _, Some r => nullish r
      | _, _ => false
      end
  | _ => true
  end.

Definition null_result_body : jsval :=
  JObj (<["email" := JStr "ada@example.com"]> {["result" := JNull]}).





Definition chunks_of_zero : VerifyBatchOptions :=
  {| batch_format := None; batch_chunk_size := Some 0;
     progress_callback := false; batch_trace_id := None;
     batch_parent_id := None; batch_debug := None;
     batch_share_signals := None |}.

(** The headers that identify the client. *)
Definition carries_credentials (config : ValidKitConfig)
    (h : gmap string string) : Prop :=
  h !! "Authorization" = Some ("Bearer " +:+ api_key config)
  /\ h !! "Content-Type" = Some "application/json"
  /\ h !! "User-Agent" = Some (user_agent config)
  /\ h !! "X-SDK-Version" = Some "1.0.0"
  /\ h !! "X-SDK-Language" = Some "typescript".

Definition authorized (config : ValidKitConfig) (e : Event) : Prop :=
  match e with
  | Fetch _ init _ => carries_credentials config (req_headers init)
  | _ => True
  end.


(** A 503, which the client retries. *)
Definition service_unavailable : FetchResult :=
  Resolved {| status := 503; statusText := "Service Unavailable";
              headers := ∅;
              json := Json (JObj {["message" := JStr "Try again later"]}) |}.

Definition two_emails : list string :=
  ["ada@example.com"; "bob@example.com"].

(** ** The test suite, replayed *)

Example test_compact_format_response :
  (verifyEmail scripted defaultConfig "test@example.com" compactOptions
     ([ok_json test_verify_body], 0)).1.1
  = Returned (JObj (<["v" := JBool true]> {["trace_id" := JStr "trace_123"]})).
Proof. vm_compute. reflexivity. Qed.

Example test_verify_batch :
  (verifyBatch scripted defaultConfig
     (Some ["test1@example.com"; "test2@example.com"]) noBatchOptions
     ([ok_json test_batch_body], 0)).1.1
  = Returned
      (JObj (<["test1@example.com" := compact_valid]>
               {["test2@example.com" :=
                   JObj (<["v" := JBool false]>
                           {["r" := JStr "invalid format"]})]})).
Proof. vm_compute. reflexivity. Qed.

Example test_retry_on_rate_limit :
  let run :=
    verifyEmail scripted defaultConfig "test@example.com" compactOptions
      ([test_429; test_429; ok_json test_verify_body], 0) in
  sleeps run.2 = [60000; 60000] /\ fetches run.2 = 3%nat.
Proof. vm_compute. split; reflexivity. Qed.

Example test_cap_retry_delay :
  let run :=
    verifyEmail scripted ten_retries "test@example.com" compactOptions
      (replicate 7 test_network_error ++ [ok_json test_verify_body], 0) in
  sleeps run.2 = [1000; 2000; 4000; 8000; 16000; 30000; 30000]
  /\ fetches run.2 = 8%nat.
Proof. vm_compute. split; reflexivity. Qed.

Example test_missing_rate_limit_headers : extractRateLimit ∅ = None.
Proof. reflexivity. Qed.

(** ** The request executor *)

Section Executor.

Variable R : Remote.
Variable config : ValidKitConfig.

Lemma shouldRetry_spec error retries :
  shouldRetry config error retries = true <->
  Z.of_nat retries < max_retries config /\ retryable (class error) = true.
Proof.
  unfold shouldRetry, instanceof.
  destruct (Z.geb_spec (Z.of_nat retries) (max_retries config));
    destruct (class error); cbn; split; intros; try lia; intuition (try discriminate; try lia).
Qed.

Lemma makeRequest_loop_S fuel endpoint options retries s :
  makeRequest_loop R config (S fuel) endpoint options retries s =
  let url := base_url config +:+ endpoint in
  let '(result, s1) := fetch R url options s in
  match attempt config result with
  | inr d => (Returned d, s1, [Fetch url options retries])
  | inl error =>
      if shouldRetry config error retries then
        let delay := getRetryDelay error retries (Date_now R s1) in
        let '(o, s2, t) :=
          makeRequest_loop R config fuel endpoint options (S retries)
            (elapse R delay s1) in
        (o, s2, Fetch url options retries :: Sleep delay :: t)
      else (Thrown (Typed error), s1, [Fetch url options retries])
  end.
Proof.
  cbn [makeRequest_loop]. unfold bind at 1, doFetch. cbn zeta.
  destruct (fetch R _ options s) as [result s1].
  assert (Hretry : forall error,
    (if shouldRetry config error retries
     then bind (now R) (fun t =>
            bind (sleep R (getRetryDelay error retries t)) (fun _ =>
              makeRequest_loop R config fuel endpoint options (S retries)))
     else throw (Typed error)) s1 =
    (if shouldRetry config error retries then
       let delay := getRetryDelay error retries (Date_now R s1) in
       let '(o, s2, t) :=
         makeRequest_loop R config fuel endpoint options (S retries)
           (elapse R delay s1) in
       (o, s2, Sleep delay :: t)
     else (Thrown (Typed error), s1, []))).
  { intros error. destruct (shouldRetry config error retries); [|reflexivity].
    unfold bind, now, sleep. cbn.
    destruct (makeRequest_loop R config fuel endpoint options (S retries) _)
      as [[o s2] t]. reflexivity. }
  destruct result as [response | errName errMessage]; cbn [attempt].
  - destruct (ok response); cbn [negb].
    + destruct (json response).
      * reflexivity.
      * rewrite Hretry. destruct (shouldRetry _ _ _); [|reflexivity].
        cbn zeta. destruct (makeRequest_loop _ _ _ _ _ _ _) as [[o s2] t].
        reflexivity.
    + rewrite Hretry. destruct (shouldRetry _ _ _); [|reflexivity].
      cbn zeta. destruct (makeRequest_loop _ _ _ _ _ _ _) as [[o s2] t].
      reflexivity.
  - destruct (String.eqb errName "AbortError");
      rewrite Hretry; destruct (shouldRetry _ _ _); try reflexivity;
      cbn zeta; destruct (makeRequest_loop _ _ _ _ _ _ _) as [[o s2] t];
      reflexivity.
Qed.

Lemma fetches_cons e t :
  fetches (e :: t) = ((if is_fetch e then 1 else 0) + fetches t)%nat.
Proof. unfold fetches. cbn. destruct (is_fetch e); reflexivity. Qed.

(** The recursion ends: a call with more fuel than retries left never
    runs out of it, and it fetches at most once per retry left, plus
    once. *)
Lemma makeRequest_loop_bound fuel endpoint options :
  forall retries s o s' t,
    makeRequest_loop R config fuel endpoint options retries s = (o, s', t) ->
    Z.of_nat (fetches t) <= Z.max 1 (max_retries config - Z.of_nat retries + 1)
    /\ ((Z.to_nat (max_retries config - Z.of_nat retries) < fuel)%nat ->
        o <> Diverged).
Proof.
  induction fuel as [|fuel IH]; intros retries s o s' t Hrun.
  - cbn in Hrun. inversion Hrun; subst. cbn. split; lia.
  - rewrite makeRequest_loop_S in Hrun. cbn zeta in Hrun.
    destruct (fetch R _ options s) as [result s1].
    destruct (attempt config result) as [error | d].
    + destruct (shouldRetry config error retries) eqn:Hretry.
      * apply shouldRetry_spec in Hretry as [Hlt _].
        destruct (makeRequest_loop R config fuel endpoint options (S retries) _)
          as [[o2 s2] t2] eqn:Hrec.
        inversion Hrun; subst; clear Hrun.
        apply IH in Hrec as [Hn Hd].
        rewrite !fetches_cons. cbn [is_fetch]. split; [lia|].
        intros Hfuel. apply Hd. lia.
      * inversion Hrun; subst. rewrite fetches_cons. cbn.
        split; [lia | discriminate].
    + inversion Hrun; subst. rewrite fetches_cons. cbn.
      split; [lia | discriminate].
Qed.

Lemma makeRequest_total endpoint options retries s :
  (makeRequest R config endpoint options retries s).1.1 <> Diverged.
Proof.
  destruct (makeRequest R config endpoint options retries s) as [[o s'] t] eqn:E.
  unfold makeRequest in E. apply makeRequest_loop_bound in E as [_ H].
  apply H. lia.
Qed.

(** One round of the executor. *)
Lemma makeRequest_step endpoint options retries s :
  makeRequest R config endpoint options retries s =
  let url := base_url config +:+ endpoint in
  let '(result, s1) := fetch R url options s in
  match attempt config result with
  | inr d => (Returned d, s1, [Fetch url options retries])
  | inl error =>
      if shouldRetry config error retries then
        let delay := getRetryDelay error retries (Date_now R s1) in
        let '(o, s2, t) :=
          makeRequest R config endpoint options (S retries)
            (elapse R delay s1) in
        (o, s2, Fetch url options retries :: Sleep delay :: t)
      else (Thrown (Typed error), s1, [Fetch url options retries])
  end.
Proof.
  unfold makeRequest at 1. rewrite makeRequest_loop_S. cbn zeta.
  destruct (fetch R _ options s) as [result s1].
  destruct (attempt config result) as [error | d]; [|reflexivity].
  destruct (shouldRetry config error retries) eqn:Hretry; [|reflexivity].
  apply shouldRetry_spec in Hretry as [Hlt _].
  unfold makeRequest.
  replace (S (Z.to_nat (max_retries config - Z.of_nat (S retries))))
    with (Z.to_nat (max_retries config - Z.of_nat retries)) by lia.
  reflexivity.
Qed.

(** A request started at counter 0 fetches at least once, and exactly
    once when its first attempt succeeds. *)
Lemma makeRequest_fetches endpoint options s o s' t :
  makeRequest R config endpoint options 0 s = (o, s', t) ->
  (1 <= fetches t)%nat
  /\ Z.of_nat (fetches t) <= Z.max 1 (max_retries config + 1)
  /\ (forall d,
      attempt config (fetch R (base_url config +:+ endpoint) options s).1
      = inr d ->
      t = [Fetch (base_url config +:+ endpoint) options 0]).
Proof.
  intros Hrun. split; [|split].
  - rewrite makeRequest_step in Hrun. cbn zeta in Hrun.
    destruct (fetch R _ options s) as [result s1].
    destruct (attempt config result) as [error | d].
    + destruct (shouldRetry config error 0).
      * destruct (makeRequest R config endpoint options 1 _) as [[o2 s2] t2].
        inversion Hrun; subst. rewrite fetches_cons. cbn. lia.
      * inversion Hrun; subst. rewrite fetches_cons. cbn. lia.
    + inversion Hrun; subst. rewrite fetches_cons. cbn. lia.
  - unfold makeRequest in Hrun.
    apply makeRequest_loop_bound in Hrun as [H _]. cbn in H. lia.
  - intros d Hd. rewrite makeRequest_step in Hrun. cbn zeta in Hrun.
    destruct (fetch R _ options s) as [result s1]. cbn in Hd.
    rewrite Hd in Hrun. inversion Hrun. reflexivity.
Qed.

End Executor.

(** C1.  A failed attempt is retried exactly when the retry counter is
    below [max_retries] and the error is a rate-limit, timeout, connection
    or server error.  An invalid-credential, validation or batch-size error
    is never retried: the executor has made that one call and throws the
    typed error at once.  A request started with counter 0 ends, after at
    most [max_retries + 1] HTTP calls. *)
Theorem makeRequest_retry_policy (R : Remote) (config : ValidKitConfig)
    (endpoint : string) (options : RequestInit) (retries : nat)
    (s : Server R) :
  0 <= max_retries config ->
  let url := base_url config +:+ endpoint in
  let result := (fetch R url options s).1 in
  let s1 := (fetch R url options s).2 in
  (forall error,
     shouldRetry config error retries = true <->
     Z.of_nat retries < max_retries config
     /\ class error ∈ [RateLimitErrorClass; TimeoutErrorClass;
                       ConnectionErrorClass; ServerErrorClass])
  /\ (forall error,
       class error ∈ [InvalidAPIKeyErrorClass; ValidationErrorClass;
                      BatchSizeErrorClass] ->
       shouldRetry config error retries = false
       /\ (attempt config result = inl error ->
           makeRequest R config endpoint options retries s =
           (Thrown (Typed error), s1, [Fetch url options retries])))
  /\ (forall error,
       attempt config result = inl error ->
       makeRequest R config endpoint options retries s =
       if shouldRetry config error retries then
         let delay := getRetryDelay error retries (Date_now R s1) in
         let '(o, s2, t) :=
           makeRequest R config endpoint options (S retries)
             (elapse R delay s1) in
         (o, s2, Fetch url options retries :: Sleep delay :: t)
       else (Thrown (Typed error), s1, [Fetch url options retries]))
  /\ (forall o s' t,
       makeRequest R config endpoint options 0 s = (o, s', t) ->
       o <> Diverged /\ Z.of_nat (fetches t) <= max_retries config + 1).
Proof.
  intros Hmax url result s1.
  assert (Hstep : forall error,
    attempt config result = inl error ->
    makeRequest R config endpoint options retries s =
    if shouldRetry config error retries then
      let delay := getRetryDelay error retries (Date_now R s1) in
      let '(o, s2, t) :=
        makeRequest R config endpoint options (S retries) (elapse R delay s1) in
      (o, s2, Fetch url options retries :: Sleep delay :: t)
    else (Thrown (Typed error), s1, [Fetch url options retries])).
  { intros error Herr. rewrite makeRequest_step. cbn zeta.
    subst result s1 url. destruct (fetch R _ options s) as [r s2]. cbn in *.
    rewrite Herr. reflexivity. }
  assert (Hclass : forall error,
    retryable (class error) = true <->
    class error ∈ [RateLimitErrorClass; TimeoutErrorClass;
                   ConnectionErrorClass; ServerErrorClass]).
  { intros error. rewrite !elem_of_cons, elem_of_nil.
    destruct (class error); cbn; intuition discriminate. }
  split; [|split; [|split]].
  - intros error. rewrite shouldRetry_spec, Hclass. reflexivity.
  - intros error Hin.
    assert (Hno : shouldRetry config error retries = false).
    { destruct (shouldRetry config error retries) eqn:E; [|reflexivity].
      apply shouldRetry_spec in E as [_ E].
      rewrite !elem_of_cons, elem_of_nil in Hin.
      destruct Hin as [H | [H | [H | []]]]; rewrite H in E; discriminate. }
    split; [exact Hno|]. intros Herr. rewrite (Hstep _ Herr), Hno. reflexivity.
  - exact Hstep.
  - intros o s' t Hrun. split.
    + pose proof (makeRequest_total R config endpoint options 0 s) as H.
      rewrite Hrun in H. exact H.
    + unfold makeRequest in Hrun.
      apply makeRequest_loop_bound in Hrun as [H _]. cbn in H. lia.
Qed.

Lemma makeRequest_retry_policy_witness :
  0 <= max_retries defaultConfig
  /\ makeRequest scripted defaultConfig "/api/v1/verify" sample_request 0
       ([sample_401], 0)
     = (Thrown (Typed (InvalidAPIKeyError "Invalid API key" None)), ([], 0),
        [Fetch "https://api.validkit.com/api/v1/verify" sample_request 0]).
Proof.
  assert (H0 : 0 <= max_retries defaultConfig) by (cbn; lia).
  split; [exact H0|].
  pose proof (makeRequest_retry_policy scripted defaultConfig "/api/v1/verify"
                sample_request 0 ([sample_401], 0) H0) as H.
  cbn zeta in H. destruct H as (_ & H & _).
  destruct (H (InvalidAPIKeyError "Invalid API key" None)) as [_ Hrun].
  - cbn. apply list_elem_of_here.
  - apply Hrun. reflexivity.
Defined.

(** ** Retry delay *)

Lemma backoff_cap (k : nat) :
  Z.min (RETRY_BASE_DELAY * 2 ^ Z.of_nat k) MAX_RETRY_DELAY <= 30000
  /\ ((5 <= k)%nat ->
      Z.min (RETRY_BASE_DELAY * 2 ^ Z.of_nat k) MAX_RETRY_DELAY = 30000).
Proof.
  unfold RETRY_BASE_DELAY, MAX_RETRY_DELAY. split; [lia|].
  intros Hk. apply Z.min_r.
  assert (2 ^ 5 <= 2 ^ Z.of_nat k) by (apply Z.pow_le_mono_r; lia).
  change (2 ^ 5) with 32 in H. lia.
Qed.

(** C2, as the specification words it, fails: the code looks at the
    retry-after of the attached Rate Limit Info before the explicit
    retry-after of the detail map.  A 429 with [Retry-After: 30] in its
    headers and [retry_after: 5] in its body is retried after 30000 ms,
    where the specification's order gives 5000 ms. *)
Lemma retry_delay_precedence_counterexample :
  exists error,
    attempt defaultConfig sample_429 = inl error
    /\ class error = RateLimitErrorClass
    /\ getRetryDelay error 0 0 = 30000
    /\ spec_rateLimitDelay error 0 = 5000
    /\ (makeRequest scripted defaultConfig "/api/v1/verify" sample_request 0
         ([sample_429; sample_401], 0)).2
       = [Fetch "https://api.validkit.com/api/v1/verify" sample_request 0;
          Sleep 30000;
          Fetch "https://api.validkit.com/api/v1/verify" sample_request 1].
Proof.
  eexists. split; [vm_compute; reflexivity|].
  repeat split; vm_compute; reflexivity.
Qed.

(** C2, amended.  For a rate-limited error the delay is the first of:
    the non-zero retry-after of the Rate Limit Info in the detail map, in
    milliseconds; the non-zero retry-after of the detail map itself; the
    non-zero retry-after of the Rate Limit Info the error took at its
    construction; the time from now to the non-zero reset of that info,
    not below 0; 60000.  For any other error at retry [k] it is
    [min (1000 * 2^k) 30000]: 1000, 2000, 4000, 8000, 16000, then 30000
    for ever. *)
Theorem retry_delay_derivation (error : ValidKitError) (k : nat) (t : Z) :
  (class error = RateLimitErrorClass ->
   getRetryDelay error k t =
   match truthy_value ((details error ≫= d_rate_limit) ≫= retry_after),
         truthy_value (details error ≫= d_retry_after),
         truthy_value (rateLimit error ≫= retry_after),
         truthy_value (reset <$> rateLimit error) with
   | Some nested, _, _, _ => nested * 1000
   | None, Some explicit, _, _ => explicit * 1000
   | None, None, Some own, _ => own * 1000
   | None, None, None, Some r => Z.max 0 (r * 1000 - t)
   | None, None, None, None => 60000
   end)
  /\ (class error <> RateLimitErrorClass ->
      getRetryDelay error k t = Z.min (1000 * 2 ^ Z.of_nat k) 30000
      /\ getRetryDelay error k t <= 30000
      /\ ((5 <= k)%nat -> getRetryDelay error k t = 30000)
      /\ (fun j => getRetryDelay error j t) <$> [0; 1; 2; 3; 4; 5; 6]%nat
         = [1000; 2000; 4000; 8000; 16000; 30000; 30000]).
Proof.
  split.
  - intros Hclass. unfold getRetryDelay, instanceof. rewrite Hclass.
    unfold RateLimitError_getRetryDelay.
    destruct (truthy_value ((details error ≫= d_rate_limit) ≫= retry_after));
      [reflexivity|].
    destruct (truthy_value (details error ≫= d_retry_after)); [reflexivity|].
    destruct (truthy_value (rateLimit error ≫= retry_after)); [reflexivity|].
    destruct (truthy_value (reset <$> rateLimit error)); reflexivity.
  - intros Hclass.
    assert (Hback : forall j,
      getRetryDelay error j t
      = Z.min (RETRY_BASE_DELAY * 2 ^ Z.of_nat j) MAX_RETRY_DELAY).
    { intros j. unfold getRetryDelay, instanceof.
      destruct (class error); try reflexivity. congruence. }
    pose proof (backoff_cap k) as [Hle Hcap].
    rewrite Hback. repeat split; try assumption.
    cbn [fmap list_fmap]. rewrite !Hback. reflexivity.
Qed.

Lemma retry_delay_derivation_witness :
  class (ConnectionError "Request failed: socket hang up" None)
    <> RateLimitErrorClass
  /\ getRetryDelay (ConnectionError "Request failed: socket hang up" None) 7 0
     = 30000.
Proof.
  assert (H : class (ConnectionError "Request failed: socket hang up" None)
              <> RateLimitErrorClass) by discriminate.
  split; [exact H|].
  destruct (retry_delay_derivation
              (ConnectionError "Request failed: socket hang up" None) 7 0)
    as [_ Hb].
  destruct (Hb H) as (_ & _ & Hcap & _). apply Hcap. lia.
Defined.

(** ** The error factory *)

Lemma or_str_spec (o : option string) (d : string) :
  (forall m, o = Some m -> m <> "" -> or_str o d = m)
  /\ (o = None \/ o = Some "" -> or_str o d = d).
Proof.
  split.
  - intros m -> Hm. unfold or_str, truthy_str.
    destruct (String.eqb_spec m ""); [contradiction | reflexivity].
  - intros [-> | ->]; reflexivity.
Qed.

(** C3.  [fromApiResponse] returns one typed error whose class follows
    from the status alone, except that a 400 is a batch-size error when
    the payload's code is BATCH_SIZE_EXCEEDED and a validation error
    otherwise: 401 invalid API key, 429 rate limit, 408 and 504 timeout,
    500, 502 and 503 server error.  Any other status gives the generic
    class, which keeps the status and takes as message the payload's
    message, else the reason phrase, else "API request failed with status
    N". *)
Theorem fromApiResponse_category (response : Response)
    (errorData : option ValidKitErrorDetails) :
  let error := fromApiResponse response errorData in
  let st := status response in
  let msg := errorData ≫= payload_message in
  (st = 401 -> class error = InvalidAPIKeyErrorClass)
  /\ (st = 429 -> class error = RateLimitErrorClass)
  /\ (st = 400 ->
      (errorData ≫= payload_code = Some "BATCH_SIZE_EXCEEDED" ->
       class error = BatchSizeErrorClass)
      /\ (errorData ≫= payload_code <> Some "BATCH_SIZE_EXCEEDED" ->
          class error = ValidationErrorClass))
  /\ (st = 408 \/ st = 504 -> class error = TimeoutErrorClass)
  /\ (st = 500 \/ st = 502 \/ st = 503 -> class error = ServerErrorClass)
  /\ (st ∉ [401; 429; 400; 408; 504; 500; 502; 503] ->
      class error = ValidKitErrorClass
      /\ statusCode error = Some st
      /\ (forall m, msg = Some m -> m <> "" -> message error = m)
      /\ (msg = None \/ msg = Some "" ->
          (statusText response <> "" -> message error = statusText response)
          /\ (statusText response = "" ->
              message error = "API request failed with status " +:+ pretty st))).
Proof.
  intros error st msg.
  assert (Hgeneric : st ∉ [401; 429; 400; 408; 504; 500; 502; 503] ->
    class error = ValidKitErrorClass
    /\ statusCode error = Some st
    /\ message error
       = or_str msg (or_str (Some (statusText response))
                       ("API request failed with status " +:+ pretty st))).
  { intros Hst. rewrite !not_elem_of_cons in Hst.
    destruct Hst as (H1 & H2 & H3 & H4 & H5 & H6 & H7 & H8 & _).
    subst error. unfold fromApiResponse. fold st. fold msg.
    repeat (match goal with
            | |- context [?a =? ?b] =>
                destruct (Z.eqb_spec a b); [contradiction|]
            end; cbn [orb]).
    destruct (errorData ≫= payload_code) as [c|]; [|repeat split].
    destruct (truthy_str c); repeat split. }
  subst error. unfold fromApiResponse. fold st. fold msg.
  split; [intros ->; reflexivity|].
  split; [intros ->; reflexivity|].
  split.
  { intros ->. cbn. split; intros Hc.
    - rewrite bool_decide_eq_true_2 by exact Hc. reflexivity.
    - rewrite bool_decide_eq_false_2 by exact Hc. reflexivity. }
  split; [intros [-> | ->]; reflexivity|].
  split; [intros [-> | [-> | ->]]; reflexivity|].
  intros Hst. destruct (Hgeneric Hst) as (Hc & Hs & Hm).
  unfold fromApiResponse in Hc, Hs, Hm. fold st in Hc, Hs, Hm.
  fold msg in Hc, Hs, Hm.
  split; [exact Hc|]. split; [exact Hs|]. rewrite Hm. split.
  - intros m Hmsg Hne. apply or_str_spec; assumption.
  - intros Hmsg.
    destruct (or_str_spec msg (or_str (Some (statusText response))
                ("API request failed with status " +:+ pretty st))) as [_ ->];
      [|exact Hmsg].
    split.
    + intros Hne. apply or_str_spec; [reflexivity | exact Hne].
    + intros ->. reflexivity.
Qed.

Lemma fromApiResponse_category_witness :
  (status sample_418 ∉ [401; 429; 400; 408; 504; 500; 502; 503])
  /\ class (fromApiResponse sample_418 None) = ValidKitErrorClass
  /\ statusCode (fromApiResponse sample_418 None) = Some 418
  /\ message (fromApiResponse sample_418 None)
     = "API request failed with status 418".
Proof.
  assert (H : status sample_418 ∉ [401; 429; 400; 408; 504; 500; 502; 503]).
  { rewrite !not_elem_of_cons. cbn. repeat split; try lia.
    apply not_elem_of_nil. }
  split; [exact H|].
  destruct (fromApiResponse_category sample_418 None)
    as (_ & _ & _ & _ & _ & Hg).
  destruct (Hg H) as (Hc & Hs & _ & Hm).
  split; [exact Hc|]. split; [exact Hs|].
  apply Hm; [left|]; reflexivity.
Defined.

(** ** Local preconditions of verifyBatch *)

Lemma verifyBatch_over_ceiling (R : Remote) (config : ValidKitConfig)
    (options : VerifyBatchOptions) (s : Server R) (emails : list string) :
  Z.of_nat (length emails) > 10000 ->
  exists error,
    verifyBatch R config (Some emails) options s = (Thrown (Typed error), s, [])
    /\ class error = BatchSizeErrorClass.
Proof.
  intros Hlen. unfold verifyBatch, MAX_BATCH_SIZE.
  destruct (Z.eqb_spec (Z.of_nat (length emails)) 0); [lia|].
  destruct (Z.gtb_spec (Z.of_nat (length emails)) 10000); [|lia].
  eexists. split; reflexivity.
Qed.

(** C4.  [verifyBatch] on a value that is not an array, or on an empty
    array, throws a validation error; on more than 10000 emails it throws
    a batch-size error.  Both leave the world as it was and the trace
    empty: no HTTP call, no sleep, so no retry. *)
Theorem verifyBatch_rejects_locally (R : Remote) (config : ValidKitConfig)
    (options : VerifyBatchOptions) (s : Server R) :
  (exists error,
     verifyBatch R config None options s = (Thrown (Typed error), s, [])
     /\ class error = ValidationErrorClass)
  /\ (exists error,
       verifyBatch R config (Some []) options s = (Thrown (Typed error), s, [])
       /\ class error = ValidationErrorClass)
  /\ (forall emails : list string,
       Z.of_nat (length emails) > 10000 ->
       exists error,
         verifyBatch R config (Some emails) options s
         = (Thrown (Typed error), s, [])
         /\ class error = BatchSizeErrorClass).
Proof.
  split; [|split].
  - eexists. split; reflexivity.
  - eexists. split; reflexivity.
  - intros emails Hlen. apply verifyBatch_over_ceiling. exact Hlen.
Qed.

Lemma verifyBatch_rejects_locally_witness :
  Z.of_nat (length (replicate (Z.to_nat 10001) "a@example.com")) > 10000
  /\ exists error,
       verifyBatch scripted defaultConfig
         (Some (replicate (Z.to_nat 10001) "a@example.com")) noBatchOptions
         ([], 0)
       = (Thrown (Typed error), ([], 0), [])
       /\ class error = BatchSizeErrorClass.
Proof.
  assert (H : Z.of_nat (length (replicate (Z.to_nat 10001) "a@example.com"))
              > 10000) by (rewrite length_replicate; lia).
  split; [exact H|].
  destruct (verifyBatch_rejects_locally scripted defaultConfig noBatchOptions
              ([], 0)) as (_ & _ & Hbig).
  exact (Hbig _ H).
Defined.

(** ** The batch orchestrator *)

Section Batch.

Variable R : Remote.
Variable config : ValidKitConfig.

Lemma milestones_app t1 t2 :
  milestones (t1 ++ t2) = milestones t1 ++ milestones t2.
Proof. apply filter_app. Qed.

Lemma milestones_cons e t :
  milestones (e :: t)
  = if is_milestone e then e :: milestones t else milestones t.
Proof.
  unfold milestones. rewrite filter_cons.
  destruct (is_milestone e); reflexivity.
Qed.

Lemma milestones_later t :
  Forall (from_attempt 1) t -> milestones t = [].
Proof.
  induction 1 as [|e t He _ IH]; [reflexivity|].
  unfold milestones in *. rewrite filter_cons, IH.
  destruct e as [url init [|k] | ms | p n]; cbn in He; try reflexivity; lia.
Qed.

Lemma makeRequest_loop_events fuel endpoint options :
  forall retries s o s' t,
    makeRequest_loop R config fuel endpoint options retries s = (o, s', t) ->
    Forall (from_attempt retries) t.
Proof.
  induction fuel as [|fuel IH]; intros retries s o s' t Hrun.
  - cbn in Hrun. inversion Hrun. constructor.
  - rewrite makeRequest_loop_S in Hrun. cbn zeta in Hrun.
    destruct (fetch R _ options s) as [result s1].
    destruct (attempt config result) as [error | d].
    + destruct (shouldRetry config error retries).
      * destruct (makeRequest_loop R config fuel endpoint options (S retries) _)
          as [[o2 s2] t2] eqn:Hrec.
        inversion Hrun; subst; clear Hrun. apply IH in Hrec.
        constructor; [cbn; lia|]. constructor; [exact I|].
        eapply Forall_impl; [exact Hrec|].
        intros [? ? k | ? | ? ?]; cbn; lia.
      * inversion Hrun. constructor; [cbn; lia | constructor].
    + inversion Hrun. constructor; [cbn; lia | constructor].
Qed.

(** A request handed to the executor shows as exactly one milestone. *)
Lemma makeRequest_milestones endpoint options s o s' t :
  makeRequest R config endpoint options 0 s = (o, s', t) ->
  milestones t = [Fetch (base_url config +:+ endpoint) options 0].
Proof.
  intros Hrun. unfold makeRequest in Hrun.
  rewrite makeRequest_loop_S in Hrun. cbn zeta in Hrun.
  destruct (fetch R _ options s) as [result s1].
  destruct (attempt config result) as [error | d].
  - destruct (shouldRetry config error 0).
    + destruct (makeRequest_loop R config _ endpoint options 1 _)
        as [[o2 s2] t2] eqn:Hrec.
      inversion Hrun; subst; clear Hrun.
      apply makeRequest_loop_events in Hrec.
      change (Fetch ?u options 0 :: Sleep ?d :: t2)
        with ([Fetch u options 0; Sleep d] ++ t2).
      rewrite milestones_app, (milestones_later t2 Hrec). reflexivity.
    + inversion Hrun. reflexivity.
  - inversion Hrun. reflexivity.
Qed.

Lemma processBatchChunk_run emails format trace_id parent_id debug
    share_signals s o s' t :
  processBatchChunk R config emails format trace_id parent_id debug
    share_signals s = (o, s', t) ->
  o <> Diverged
  /\ milestones t
     = [Fetch (base_url config +:+ "/api/v1/verify/bulk")
          (chunkRequest config emails format trace_id parent_id debug
             share_signals) 0]
  /\ exists o1,
      makeRequest R config "/api/v1/verify/bulk"
        (chunkRequest config emails format trace_id parent_id debug
           share_signals) 0 s = (o1, s', t)
      /\ match o1 with
         | Returned response =>
             o = match processBatchChunk_result emails format (data response) with
                 | Some v => Returned v
                 | None => Thrown TypeError
                 end
         | Thrown e => o = Thrown e
         | Diverged => False
         end.
Proof.
  unfold processBatchChunk, bind. intros Hrun.
  pose proof (makeRequest_total R config "/api/v1/verify/bulk"
    (chunkRequest config emails format trace_id parent_id debug share_signals)
    0 s) as Htotal.
  destruct (makeRequest R config _ _ 0 s) as [[o1 s1] t1] eqn:Hreq.
  cbn in Htotal. apply makeRequest_milestones in Hreq as Hm.
  destruct o1 as [response | e |]; [| |contradiction].
  - unfold eval in Hrun.
    destruct (processBatchChunk_result emails format (data response)) eqn:E;
      cbn in Hrun; inversion Hrun; subst; rewrite app_nil_r;
      (split; [discriminate|]); (split; [exact Hm|]);
      eexists; (split; [reflexivity|]); cbn; rewrite E; reflexivity.
  - inversion Hrun; subst. split; [discriminate|]. split; [exact Hm|].
    eexists; split; reflexivity.
Qed.

End Batch.

(** *** chunkArray *)

Lemma ceil_div_0 c : 0 < c -> ceil_div 0 c = 0.
Proof. intros Hc. unfold ceil_div. apply Z.div_small. lia. Qed.

Lemma ceil_div_step m c :
  0 < c -> 0 < m -> ceil_div m c = 1 + ceil_div (Z.max 0 (m - c)) c.
Proof.
  intros Hc Hm. unfold ceil_div.
  destruct (Z.le_gt_cases c m) as [Hle | Hgt].
  - rewrite Z.max_r by lia.
    replace (m + c - 1) with ((m - c + c - 1) + 1 * c) by lia.
    rewrite Z.div_add by lia. lia.
  - rewrite Z.max_l by lia.
    replace (m + c - 1) with ((m - 1) + 1 * c) by lia.
    rewrite Z.div_add by lia.
    rewrite (Z.div_small (m - 1)) by lia.
    rewrite (Z.div_small (0 + c - 1)) by lia. reflexivity.
Qed.

Lemma ceil_div_bounds m c :
  0 < c -> (ceil_div m c - 1) * c < m <= ceil_div m c * c.
Proof.
  intros Hc. unfold ceil_div.
  pose proof (Z.div_mod (m + c - 1) c ltac:(lia)) as Hdiv.
  pose proof (Z.mod_pos_bound (m + c - 1) c Hc) as Hmod.
  nia.
Qed.

Lemma ceil_div_nonneg m c : 0 < c -> 0 <= m -> 0 <= ceil_div m c.
Proof. intros Hc Hm. unfold ceil_div. apply Z.div_pos; lia. Qed.

Section Chunks.

Context {A : Type}.
Variable array : list A.
Variable c : nat.
Hypothesis c_pos : (0 < c)%nat.

Lemma offset_ind (P : nat -> Prop) :
  (forall j, (length array <= j)%nat -> P j) ->
  (forall j, (j < length array)%nat -> P (j + c)%nat -> P j) ->
  forall j, P j.
Proof.
  intros Hbase Hstep.
  assert (H : forall fuel j, (length array - j <= fuel)%nat -> P j).
  { induction fuel as [|fuel IH]; intros j Hj.
    - apply Hbase. lia.
    - destruct (Nat.le_gt_cases (length array) j) as [Hge | Hlt].
      + apply Hbase. exact Hge.
      + apply Hstep; [exact Hlt|]. apply IH. lia. }
  intros j. apply (H (length array - j)%nat). lia.
Qed.

Lemma chunk_count_end j :
  (length array <= j)%nat -> chunk_count (length array - j) c = 0%nat.
Proof.
  intros Hj. unfold chunk_count.
  replace (length array - j)%nat with 0%nat by lia.
  rewrite ceil_div_0 by lia. reflexivity.
Qed.

Lemma chunk_count_step j :
  (j < length array)%nat ->
  chunk_count (length array - j) c
  = S (chunk_count (length array - (j + c)) c).
Proof.
  intros Hj. unfold chunk_count.
  rewrite (ceil_div_step (Z.of_nat (length array - j))) by lia.
  replace (Z.max 0 (Z.of_nat (length array - j) - Z.of_nat c))
    with (Z.of_nat (length array - (j + c))) by lia.
  pose proof (ceil_div_nonneg (Z.of_nat (length array - (j + c))) (Z.of_nat c))
    as Hnn.
  rewrite Z2Nat.inj_add by lia. reflexivity.
Qed.

Lemma chunks_from_end j :
  (length array <= j)%nat -> chunks_from array c j = [].
Proof.
  intros Hj. unfold chunks_from. rewrite chunk_count_end by exact Hj.
  reflexivity.
Qed.

Lemma chunks_from_step j :
  (j < length array)%nat ->
  chunks_from array c j
  = take c (drop j array) :: chunks_from array c (j + c).
Proof.
  intros Hj. unfold chunks_from. rewrite chunk_count_step by exact Hj.
  cbn [seq fmap list_fmap].
  rewrite Nat.add_0_r. f_equal.
  rewrite <- fmap_S_seq, <- list_fmap_compose.
  apply list_fmap_ext. intros _ k _. cbn.
  do 2 f_equal. lia.
Qed.

Lemma slice_chunk j :
  slice array (Z.of_nat j) (Z.of_nat j + Z.of_nat c) = take c (drop j array).
Proof.
  unfold slice. cbv zeta.
  destruct (Z.ltb_spec (Z.of_nat j) 0); [lia|].
  destruct (Z.ltb_spec (Z.of_nat j + Z.of_nat c) 0); [lia|].
  destruct (Nat.le_gt_cases (length array) j) as [Hge | Hlt].
  - rewrite !drop_ge by lia. rewrite !take_nil. reflexivity.
  - replace (Z.to_nat (Z.of_nat j `min` Z.of_nat (length array)))
      with j by lia.
    destruct (Z.le_gt_cases (Z.of_nat j + Z.of_nat c) (Z.of_nat (length array))).
    + f_equal. lia.
    + rewrite !take_ge; [reflexivity | |]; rewrite length_drop; lia.
Qed.

Lemma chunkArray_loop_spec fuel j :
  (length array - j <= fuel)%nat ->
  chunkArray_loop fuel array (Z.of_nat c) (Z.of_nat j)
  = Some (chunks_from array c j).
Proof.
  revert j. induction fuel as [|fuel IH]; intros j Hj.
  - cbn. destruct (Z.ltb_spec (Z.of_nat j) (Z.of_nat (length array))); [lia|].
    rewrite chunks_from_end by lia. reflexivity.
  - cbn [chunkArray_loop].
    destruct (Z.ltb_spec (Z.of_nat j) (Z.of_nat (length array))).
    + rewrite slice_chunk, <- Nat2Z.inj_add, IH by lia.
      rewrite (chunks_from_step j) by lia. reflexivity.
    + rewrite chunks_from_end by lia. reflexivity.
Qed.

Lemma chunks_from_concat j : concat (chunks_from array c j) = drop j array.
Proof.
  induction j as [j Hj | j Hj IH] using offset_ind.
  - rewrite chunks_from_end, drop_ge by lia. reflexivity.
  - rewrite chunks_from_step by lia. cbn [concat]. rewrite IH.
    rewrite <- (drop_drop array c j). apply take_drop.
Qed.

Lemma chunks_from_lengths j :
  Forall (fun chunk => (0 < length chunk <= c)%nat) (chunks_from array c j).
Proof.
  induction j as [j Hj | j Hj IH] using offset_ind.
  - rewrite chunks_from_end by lia. constructor.
  - rewrite chunks_from_step by lia. constructor; [|exact IH].
    rewrite length_take, length_drop. lia.
Qed.

End Chunks.

Section Progress.

Variable R : Remote.
Variable config : ValidKitConfig.
Variable emails : list string.
Variable c : nat.
Hypothesis c_pos : (0 < c)%nat.
Variable url : string.
Variable request : list string -> RequestInit.
Variable callback : bool.
Variable total : Z.

(** The milestones of the chunks from position [j] on, in closed form:
    after its [k+1] first chunks the batch has counted
    [min ((k+1) * c) (length emails - j)] emails more. *)
Lemma chunk_milestones_closed j :
  forall p,
    chunk_milestones url request callback total (chunks_from emails c j) p
    = concat
        ((fun k =>
            Fetch url (request (take c (drop (j + k * c) emails))) 0
              :: (if callback
                  then [Progress
                          (p + Z.of_nat (((k + 1) * c) `min`
                                           (length emails - j))) total]
                  else []))
           <$> seq 0 (chunk_count (length emails - j) c)).
Proof.
  induction j as [j Hj | j Hj IH] using (offset_ind emails c c_pos); intros p.
  - rewrite chunks_from_end, chunk_count_end by lia. reflexivity.
  - rewrite chunks_from_step, chunk_count_step by lia.
    cbn [chunk_milestones seq fmap list_fmap concat]. rewrite IH.
    rewrite Nat.add_0_r, length_take, length_drop.
    rewrite <- app_comm_cons. f_equal. f_equal.
    { destruct callback; [|reflexivity]. do 2 f_equal. lia. }
    rewrite <- fmap_S_seq, <- list_fmap_compose.
    destruct (Nat.le_gt_cases c (length emails - j)) as [Hle | Hgt].
    + f_equal. apply list_fmap_ext. intros _ k _. cbn [compose].
      replace (j + S k * c)%nat with (j + c + k * c)%nat
        by (cbn [Nat.mul]; lia).
      f_equal. destruct callback; [|reflexivity]. do 2 f_equal.
      replace ((S k + 1) * c)%nat with (c + (k + 1) * c)%nat
        by (cbn [Nat.mul Nat.add]; lia).
      lia.
    + rewrite (chunk_count_end emails c c_pos (j + c)) by lia. reflexivity.
Qed.

End Progress.

Lemma fetches_app t1 t2 : fetches (t1 ++ t2) = (fetches t1 + fetches t2)%nat.
Proof. unfold fetches. rewrite filter_app, length_app. reflexivity. Qed.

Lemma progress_calls_app t1 t2 :
  progress_calls (t1 ++ t2) = (progress_calls t1 + progress_calls t2)%nat.
Proof. unfold progress_calls. rewrite filter_app, length_app. reflexivity. Qed.

Lemma progress_calls_cons e t :
  progress_calls (e :: t)
  = ((if is_progress e then 1 else 0) + progress_calls t)%nat.
Proof.
  unfold progress_calls. rewrite filter_cons.
  destruct (is_progress e); reflexivity.
Qed.

(** In the milestones of a batch there is one request per chunk and,
    with a callback, one progress call per chunk. *)
Lemma milestone_counts (request : nat -> Event) (progress : nat -> list Event)
    (ks : list nat) :
  (forall k, is_fetch (request k) = true /\ is_progress (request k) = false) ->
  (forall k, fetches (progress k) = 0%nat) ->
  fetches (concat ((fun k => request k :: progress k) <$> ks)) = length ks
  /\ ((forall k, progress_calls (progress k) = 1%nat) ->
      progress_calls (concat ((fun k => request k :: progress k) <$> ks))
      = length ks).
Proof.
  intros Hreq Hprog.
  induction ks as [|k ks [IHf IHp]]; [split; reflexivity|].
  cbn [fmap list_fmap concat]. destruct (Hreq k) as [Hf Hp]. split.
  - rewrite fetches_app, fetches_cons, Hf, Hprog, IHf. reflexivity.
  - intros Hone.
    rewrite progress_calls_app, progress_calls_cons, Hp, Hone, (IHp Hone).
    reflexivity.
Qed.

Section Orchestrator.

Variable R : Remote.
Variable config : ValidKitConfig.

Lemma forEachChunk_run chunks total format options :
  forall results processed s o s' t,
    forEachChunk R config chunks total format options results processed s
    = (o, s', t) ->
    o <> Diverged
    /\ (forall r, o = Returned r ->
        milestones t
        = chunk_milestones (base_url config +:+ "/api/v1/verify/bulk")
            (fun chunk =>
               chunkRequest config chunk format (batch_trace_id options)
                 (batch_parent_id options)
                 (default false (batch_debug options))
                 (batch_share_signals options))
            (progress_callback options) total chunks processed).
Proof.
  induction chunks as [|chunk rest IH]; intros results processed s o s' t Hrun.
  - cbn in Hrun. inversion Hrun. split; [discriminate | reflexivity].
  - cbn [forEachChunk] in Hrun. unfold bind at 1 in Hrun.
    destruct (processBatchChunk R config chunk format _ _ _ _ s)
      as [[o1 s1] t1] eqn:E1.
    apply processBatchChunk_run in E1 as (Hnd1 & Hm & _).
    destruct o1 as [chunkResults | e |].
    + unfold bind in Hrun.
      destruct (progress_callback options); cbn in Hrun;
        destruct (forEachChunk R config rest total format options _ _ s1)
          as [[o2 s2] t2] eqn:E2;
        inversion Hrun; subst; clear Hrun;
        apply IH in E2 as [Hnd Hret]; (split; [exact Hnd|]);
        intros r Hr;
        rewrite !milestones_app, ?milestones_cons, Hm, (Hret r Hr);
        reflexivity.
    + inversion Hrun. split; [discriminate|]. intros r Hr. discriminate.
    + contradiction.
Qed.

End Orchestrator.

(** C5.  With a positive chunk size below the number [n] of emails, and
    [n] at most 10000, [chunkArray] cuts the list into [ceil (n / chunkSize)]
    consecutive slices of at most [chunkSize] emails, in the order of the
    list.  A batch that completes has handed these slices to the executor
    one after the other, each as one request, and after each of them has
    called the progress callback once, with the counts [chunkSize],
    [2 * chunkSize], ..., [n] and the total [n]. *)
Theorem verifyBatch_chunked (R : Remote) (config : ValidKitConfig)
    (emails : list string) (options : VerifyBatchOptions) (s : Server R) :
  let n := Z.of_nat (length emails) in
  let chunkSize :=
    default (default_chunk_size config) (batch_chunk_size options) in
  let c := Z.to_nat chunkSize in
  let count := Z.to_nat (ceil_div n chunkSize) in
  let request (k : nat) :=
    Fetch (base_url config +:+ "/api/v1/verify/bulk")
      (chunkRequest config (spec_chunk emails c k)
         (default COMPACT (batch_format options)) (batch_trace_id options)
         (batch_parent_id options) (default false (batch_debug options))
         (batch_share_signals options)) 0 in
  0 < chunkSize ->
  chunkSize < n <= 10000 ->
  chunkArray emails chunkSize = Some (spec_chunk emails c <$> seq 0 count)
  /\ concat (spec_chunk emails c <$> seq 0 count) = emails
  /\ Forall (fun chunk => (0 < length chunk <= c)%nat)
       (spec_chunk emails c <$> seq 0 count)
  /\ (forall k, (k + 1 < count)%nat ->
       Z.min ((Z.of_nat k + 1) * chunkSize) n = (Z.of_nat k + 1) * chunkSize)
  /\ Z.min (Z.of_nat count * chunkSize) n = n
  /\ forall o s' t,
       verifyBatch R config (Some emails) options s = (o, s', t) ->
       o <> Diverged
       /\ (forall results,
           o = Returned results ->
           milestones t
           = concat
               ((fun k =>
                   request k
                     :: (if progress_callback options
                         then [Progress
                                 (Z.min ((Z.of_nat k + 1) * chunkSize) n) n]
                         else []))
                  <$> seq 0 count)
           /\ fetches (milestones t) = count
           /\ (progress_callback options = true ->
               progress_calls (milestones t) = count)).
Proof.
  intros n chunkSize c count request Hpos [Hlt Hle].
  assert (Hc : (0 < c)%nat) by lia.
  assert (Hcs : chunkSize = Z.of_nat c) by lia.
  assert (Hcount : count = chunk_count (length emails - 0) c).
  { unfold count, chunk_count. rewrite Nat.sub_0_r, <- Hcs. reflexivity. }
  assert (Hchunks : spec_chunk emails c <$> seq 0 count = chunks_from emails c 0).
  { unfold chunks_from. rewrite <- Hcount. reflexivity. }
  assert (Harray : chunkArray emails chunkSize = Some (chunks_from emails c 0)).
  { unfold chunkArray. rewrite Hcs.
    apply (chunkArray_loop_spec emails c Hc (length emails) 0). lia. }
  rewrite Hchunks.
  split; [exact Harray|].
  split; [apply (chunks_from_concat emails c Hc 0)|].
  split; [apply (chunks_from_lengths emails c Hc 0)|].
  assert (Hbounds := ceil_div_bounds n chunkSize Hpos).
  assert (Hcountz : Z.of_nat count = ceil_div n chunkSize).
  { unfold count. pose proof (ceil_div_nonneg n chunkSize Hpos). lia. }
  split; [intros k Hk; apply Z.min_l; nia|].
  split; [apply Z.min_r; nia|].
  intros o s' t Hrun. unfold verifyBatch, MAX_BATCH_SIZE in Hrun.
  fold n chunkSize in Hrun.
  destruct (Z.eqb_spec n 0); [lia|].
  destruct (Z.gtb_spec n 10000); [lia|].
  destruct (Z.leb_spec n chunkSize); [lia|].
  rewrite Harray in Hrun. unfold bind in Hrun.
  destruct (forEachChunk R config (chunks_from emails c 0) n _ options ∅ 0 s)
    as [[o1 s1] t1] eqn:Hloop.
  apply forEachChunk_run in Hloop as [Hnd Hret].
  destruct o1 as [r | e |]; [| |contradiction];
    cbn in Hrun; inversion Hrun; subst o s' t; clear Hrun;
    (split; [discriminate|]); intros results Hres; [|discriminate].
  assert (Hmil : milestones t1
    = concat
        ((fun k =>
            request k
              :: (if progress_callback options
                  then [Progress (Z.min ((Z.of_nat k + 1) * chunkSize) n) n]
                  else []))
           <$> seq 0 count)).
  { rewrite (Hret r eq_refl).
    rewrite (chunk_milestones_closed emails c Hc), <- Hcount.
    f_equal. apply list_fmap_ext. intros _ k _.
    f_equal. destruct (progress_callback options); [|reflexivity].
    do 2 f_equal.
    rewrite Nat.sub_0_r, Nat2Z.inj_min, Nat2Z.inj_mul, Nat2Z.inj_add, <- Hcs.
    fold n. lia. }
  rewrite app_nil_r, Hmil.
  split; [reflexivity|].
  destruct (milestone_counts request
              (fun k => if progress_callback options
                        then [Progress (Z.min ((Z.of_nat k + 1) * chunkSize) n) n]
                        else [])
              (seq 0 count)) as [Hfetches Hprogress].
  - intros k. split; reflexivity.
  - intros k. destruct (progress_callback options); reflexivity.
  - rewrite length_seq in Hfetches, Hprogress.
    split; [exact Hfetches|].
    intros Hcb. apply Hprogress. intros k. rewrite Hcb. reflexivity.
Qed.

Lemma verifyBatch_chunked_witness :
  0 < 2 /\ 2 < Z.of_nat (length three_emails) <= 10000
  /\ chunkArray three_emails 2
     = Some [["ada@example.com"; "bob@example.com"]; ["cyd@example.com"]]
  /\ milestones
       (verifyBatch scripted defaultConfig (Some three_emails) chunks_of_two
          ([ok_json (indexed [compact_valid; compact_valid]);
            ok_json (indexed [compact_valid])], 0)).2
     = [Fetch "https://api.validkit.com/api/v1/verify/bulk"
          (chunkRequest defaultConfig ["ada@example.com"; "bob@example.com"]
             COMPACT None None false None) 0;
        Progress 2 3;
        Fetch "https://api.validkit.com/api/v1/verify/bulk"
          (chunkRequest defaultConfig ["cyd@example.com"]
             COMPACT None None false None) 0;
        Progress 3 3].
Proof.
  assert (H1 : 0 < 2) by lia.
  assert (H2 : 2 < Z.of_nat (length three_emails) <= 10000) by (cbn; lia).
  split; [exact H1|]. split; [exact H2|].
  pose proof (verifyBatch_chunked scripted defaultConfig three_emails
                chunks_of_two
                ([ok_json (indexed [compact_valid; compact_valid]);
                  ok_json (indexed [compact_valid])], 0) H1 H2) as H.
  cbn zeta in H. destruct H as (Harray & _ & _ & _ & _ & Hrun).
  split; [exact Harray|].
  destruct (verifyBatch scripted defaultConfig (Some three_emails) chunks_of_two
              ([ok_json (indexed [compact_valid; compact_valid]);
                ok_json (indexed [compact_valid])], 0))
    as [[o s'] t] eqn:E.
  destruct (Hrun o s' t eq_refl) as [_ Hm].
  assert (Ho : exists r, o = Returned r).
  { assert (Ho' : (verifyBatch scripted defaultConfig (Some three_emails)
                     chunks_of_two
                     ([ok_json (indexed [compact_valid; compact_valid]);
                       ok_json (indexed [compact_valid])], 0)).1.1 = o)
      by (rewrite E; reflexivity).
    rewrite <- Ho'. vm_compute. eexists. reflexivity. }
  destruct Ho as [r Hr]. exact (proj1 (Hm r Hr)).
Defined.

(** ** The response normaliser *)

(** Looks a literal key up in an object built by inserting literal
    keys. *)
Ltac lookup_keys :=
  repeat first
    [ rewrite lookup_insert_eq
    | rewrite lookup_insert_ne by discriminate
    | rewrite lookup_singleton_eq
    | rewrite lookup_singleton_ne by discriminate ];
  reflexivity.

Lemma assign_insert (k : string) (v : jsval) (o : gmap string jsval) :
  k <> "__proto__" -> assign k v o = <[k := v]> o.
Proof.
  intros Hk. unfold assign.
  destruct (String.eqb_spec k "__proto__"); [contradiction | reflexivity].
Qed.

Lemma assign_ne (k j : string) (v : jsval) (o : gmap string jsval) :
  k <> j -> assign k v o !! j = o !! j.
Proof.
  intros Hne. unfold assign.
  destruct (String.eqb k "__proto__"); [reflexivity|].
  apply lookup_insert_ne. exact Hne.
Qed.

Lemma assign_eq (k : string) (v : jsval) (o : gmap string jsval) :
  k <> "__proto__" -> assign k v o !! k = Some v.
Proof. intros Hk. rewrite assign_insert by exact Hk. apply lookup_insert_eq. Qed.

Lemma assign_Some (k j : string) (v x : jsval) (o : gmap string jsval) :
  assign k v o !! j = Some x -> (k = j /\ v = x) \/ o !! j = Some x.
Proof.
  unfold assign. destruct (String.eqb k "__proto__"); [auto|].
  destruct (decide (k = j)) as [-> | Hne].
  - rewrite lookup_insert_eq. intros H. inversion H. auto.
  - rewrite lookup_insert_ne by exact Hne. auto.
Qed.

Section IndexedCompact.

Variable m : gmap string jsval.

Lemma forEachEmail_other emails : forall index acc email,
  email ∉ emails ->
  forEachEmail (JObj m) emails index acc !! email = acc !! email.
Proof.
  induction emails as [|e rest IH]; intros index acc email Hnot;
    [reflexivity|].
  apply not_elem_of_cons in Hnot as [Hne Hrest].
  cbn [forEachEmail]. rewrite IH by exact Hrest.
  destruct (truthy _); [|reflexivity].
  apply assign_ne. congruence.
Qed.

Lemma truthy_at_index index v :
  m !! pretty index = Some v ->
  default JUndefined (getIndex (JObj m) index) = v.
Proof. intros H. cbn. rewrite H. reflexivity. Qed.

(** Every entry of the result is the value found at some position of
    the chunk, under the email at that position. *)
Lemma forEachEmail_sound emails : forall index acc email v,
  forEachEmail (JObj m) emails index acc !! email = Some v ->
  acc !! email = Some v
  \/ exists i, emails !! i = Some email
             /\ m !! pretty (index + i)%nat = Some v /\ truthy v = true.
Proof.
  induction emails as [|e rest IH]; intros index acc email v Hr.
  - left. exact Hr.
  - cbn [forEachEmail] in Hr. apply IH in Hr as [Hacc | (i & Hi & Hm & Ht)].
    + destruct (truthy (default JUndefined (getIndex (JObj m) index))) eqn:Ht;
        [|left; exact Hacc].
      apply assign_Some in Hacc as [[-> Hv] | Hacc]; [|left; exact Hacc].
      subst v. right. exists 0%nat. rewrite Nat.add_0_r.
      split; [reflexivity|]. split; [|exact Ht].
      cbn in Ht |- *. destruct (m !! pretty index); [reflexivity|].
      discriminate.
    + right. exists (S i). split; [exact Hi|].
      rewrite <- Nat.add_succ_comm. split; assumption.
Qed.

(** The value at a position is found under the email at that position,
    unless that email comes again later in the chunk. *)
Lemma forEachEmail_complete emails : forall index acc i email v,
  email <> "__proto__" ->
  emails !! i = Some email ->
  m !! pretty (index + i)%nat = Some v ->
  truthy v = true ->
  (forall j, (i < j)%nat -> emails !! j <> Some email) ->
  forEachEmail (JObj m) emails index acc !! email = Some v.
Proof.
  induction emails as [|e rest IH];
    intros index acc i email v Hname Hi Hm Ht Hlast; [discriminate|].
  cbn [forEachEmail]. destruct i as [|i].
  - inversion Hi; subst e. rewrite Nat.add_0_r in Hm.
    rewrite forEachEmail_other.
    + rewrite (truthy_at_index _ _ Hm), Ht. apply assign_eq. exact Hname.
    + intros Hin. apply list_elem_of_lookup in Hin as [j Hj].
      exact (Hlast (S j) ltac:(lia) Hj).
  - apply (IH (S index) _ i); [exact Hname | exact Hi | | exact Ht |].
    + rewrite Nat.add_succ_comm. exact Hm.
    + intros j Hj. exact (Hlast (S j) ltac:(lia)).
Qed.

End IndexedCompact.

(** C6, as the specification words it, fails for the full format: an
    indexed body is re-keyed only when the compact format was requested.
    With the full format requested it comes back as it is, keyed by
    "0". *)
Lemma rekey_full_format_counterexample :
  processBatchChunk_result ["ada@example.com"] FULL (indexed [compact_valid])
  = Some (indexed [compact_valid])
  /\ getField (indexed [compact_valid]) "ada@example.com" = Some JUndefined
  /\ getField (indexed [compact_valid]) "0" = Some compact_valid
  /\ (verifyBatch scripted defaultConfig (Some ["ada@example.com"])
        {| batch_format := Some FULL; batch_chunk_size := None;
           progress_callback := false; batch_trace_id := None;
           batch_parent_id := None; batch_debug := None;
           batch_share_signals := None |}
        ([ok_json (indexed [compact_valid])], 0)).1.1
     = Returned (indexed [compact_valid]).
Proof. repeat split; vm_compute; reflexivity. Qed.

(** C6, amended.  When the compact format was requested and the body is
    an object without a [results] key, the result is a map keyed by the
    emails of the chunk.  Each of its entries is the value, unchanged,
    that the body holds under the index of a position of that email; and
    the truthy value under the index of a position is the entry of the
    email at that position, unless the same email comes again later in
    the chunk.  The email [__proto__] is left out: assigning under that
    name does not add an entry. *)
Theorem processBatchChunk_rekeys_compact (emails : list string)
    (m : gmap string jsval) :
  m !! "results" = None ->
  exists r,
    processBatchChunk_result emails COMPACT (JObj m) = Some (JObj r)
    /\ (forall email v,
        r !! email = Some v ->
        exists i, emails !! i = Some email
                  /\ m !! pretty i = Some v /\ truthy v = true)
    /\ (forall i email v,
        email <> "__proto__" ->
        emails !! i = Some email ->
        m !! pretty i = Some v ->
        truthy v = true ->
        (forall j, (i < j)%nat -> emails !! j <> Some email) ->
        r !! email = Some v).
Proof.
  intros Hshape. exists (forEachEmail (JObj m) emails 0 ∅).
  split.
  - unfold processBatchChunk_result. cbn.
    rewrite Hshape. rewrite bool_decide_eq_false_2 by (intros [? ?]; discriminate).
    reflexivity.
  - split.
    + intros email v Hr.
      apply forEachEmail_sound in Hr as [Hacc | Hr]; [|exact Hr].
      rewrite lookup_empty in Hacc. discriminate.
    + intros i email v Hname Hi Hm Ht Hlast.
      apply (forEachEmail_complete m emails 0 ∅ i); assumption.
Qed.

Lemma processBatchChunk_rekeys_compact_witness :
  ({["0" := compact_valid]} : gmap string jsval) !! "results" = None
  /\ exists r,
       processBatchChunk_result ["ada@example.com"] COMPACT
         (JObj {["0" := compact_valid]}) = Some (JObj r)
       /\ r !! "ada@example.com" = Some compact_valid.
Proof.
  assert (H : ({["0" := compact_valid]} : gmap string jsval) !! "results" = None)
    by reflexivity.
  split; [exact H|].
  destruct (processBatchChunk_rekeys_compact ["ada@example.com"] _ H)
    as (r & Hr & _ & Hcomplete).
  exists r. split; [exact Hr|].
  apply (Hcomplete 0%nat); try reflexivity; [discriminate|].
  intros j Hj. destruct j; [lia|]. cbn. discriminate.
Defined.

(** C7, as the specification words it, fails when the body has no
    [result] or no [email] field: it is then returned as it is, whatever
    the requested format.  A body that reports a disposable address
    without echoing the email comes back with neither [v] nor [d]; a body
    that is already compact comes back with its [r]. *)
Lemma compact_passthrough_counterexample :
  (verifyEmail scripted defaultConfig "ada@tempmail.com" compactOptions
     ([ok_json disposable_without_email], 0)).1.1
  = Returned disposable_without_email
  /\ getFieldOpt
       (getFieldOpt (getFieldOpt disposable_without_email "result") "disposable")
       "value" = JBool true
  /\ getField disposable_without_email "v" = Some JUndefined
  /\ getField disposable_without_email "d" = Some JUndefined
  /\ (verifyEmail scripted defaultConfig "ada@example.com" compactOptions
        ([ok_json compact_with_reason], 0)).1.1
     = Returned compact_with_reason
  /\ getField compact_with_reason "r" = Some (JStr "invalid_format").
Proof. repeat split; vm_compute; reflexivity. Qed.

Lemma verifyEmail_run (R : Remote) (config : ValidKitConfig) (email : string)
    (options : VerifyEmailOptions) (s : Server R) :
  email <> "" ->
  verifyEmail R config email options s
  = let '(o, s', t) :=
      makeRequest R config "/api/v1/verify"
        (verifyEmailRequest config email options) 0 s in
    match o with
    | Returned response =>
        match verifyEmail_result (default FULL (email_format options))
                (data response) with
        | Some v => (Returned v, s', t)
        | None => (Thrown TypeError, s', t)
        end
    | Thrown e => (Thrown e, s', t)
    | Diverged => (Diverged, s', t)
    end.
Proof.
  intros Hne. unfold verifyEmail, truthy_str.
  destruct (String.eqb_spec email ""); [contradiction|]. cbn [negb].
  unfold bind.
  destruct (makeRequest R config _ _ 0 s) as [[o s'] t].
  destruct o as [response | e |]; try reflexivity.
  unfold eval. destruct (verifyEmail_result _ _); cbn; rewrite app_nil_r;
    reflexivity.
Qed.

(** C7, amended.  For a single verification in the compact format whose
    request returns a body with both a [result] and an [email] field, the
    [result] not being null: the value returned is an object whose [v] is
    the [valid] of the nested result; it has [d: true] when the [value]
    of the nested disposable check is true, and no [d] at all when that
    value is false or absent; it never has an [r]; its only other key can
    be [trace_id]. *)
Theorem verifyEmail_compact (R : Remote) (config : ValidKitConfig)
    (email : string) (options : VerifyEmailOptions) (s s' : Server R)
    (t : list Event) (response : ResponseData) (m : gmap string jsval)
    (result : jsval) :
  email <> "" ->
  email_format options = Some COMPACT ->
  makeRequest R config "/api/v1/verify"
    (verifyEmailRequest config email options) 0 s = (Returned response, s', t) ->
  data response = JObj m ->
  m !! "result" = Some result ->
  is_Some (m !! "email") ->
  result <> JNull ->
  result <> JUndefined ->
  let value := getFieldOpt (getFieldOpt result "disposable") "value" in
  exists o,
    verifyEmail R config email options s = (Returned (JObj o), s', t)
    /\ o !! "v" = Some (getFieldOpt result "valid")
    /\ (value = JBool true -> o !! "d" = Some (JBool true))
    /\ (value = JBool false \/ value = JUndefined -> o !! "d" = None)
    /\ o !! "r" = None
    /\ dom o ⊆ {["v"; "d"; "trace_id"]}.
Proof.
  intros Hemail Hformat Hrun Hdata Hresult Hhas Hnull Hundef value.
  rewrite (verifyEmail_run R config email options s Hemail), Hrun, Hformat, Hdata.
  cbn [default]. unfold verifyEmail_result. cbn [hasProperty mbind option_bind].
  rewrite Hresult. rewrite !bool_decide_eq_true_2 by eauto. cbn.
  rewrite Hresult. cbn.
  unfold compactResult.
  assert (Hget : forall k, getField result k = Some (getFieldOpt result k)).
  { intros k. unfold getFieldOpt. destruct result; try reflexivity; congruence. }
  rewrite !Hget. cbn [mbind option_bind]. fold value.
  eexists. split; [reflexivity|].
  unfold spreadIf.
  destruct (truthy (getFieldOpt (JObj m) "trace_id")) eqn:Htrace;
    destruct (truthy value) eqn:Hvalue;
    (split; [lookup_keys|]);
    (split; [intros Hv; try (rewrite Hv in Hvalue; discriminate);
             lookup_keys|]);
    (split; [intros [Hv | Hv]; try (rewrite Hv in Hvalue; discriminate);
             lookup_keys|]);
    (split; [lookup_keys|]);
    rewrite ?dom_insert_L, ?dom_singleton_L; intros x;
    rewrite ?elem_of_union, ?elem_of_singleton; tauto.
Qed.

Lemma verifyEmail_compact_witness :
  "ada@tempmail.com" <> ""
  /\ email_format compactOptions = Some COMPACT
  /\ disposable_result <> JNull
  /\ disposable_result <> JUndefined
  /\ exists o,
       verifyEmail scripted defaultConfig "ada@tempmail.com" compactOptions
         ([ok_json (JObj disposable_body)], 0)
       = (Returned (JObj o), ([], 0),
          [Fetch "https://api.validkit.com/api/v1/verify"
             (verifyEmailRequest defaultConfig "ada@tempmail.com"
                compactOptions) 0])
       /\ o !! "v" = Some (JBool true)
       /\ o !! "d" = Some (JBool true)
       /\ o !! "r" = None.
Proof.
  assert (H1 : "ada@tempmail.com" <> "") by discriminate.
  assert (H2 : email_format compactOptions = Some COMPACT) by reflexivity.
  assert (H3 : disposable_result <> JNull) by discriminate.
  assert (H4 : disposable_result <> JUndefined) by discriminate.
  repeat (split; [assumption|]).
  destruct (verifyEmail_compact scripted defaultConfig "ada@tempmail.com"
              compactOptions ([ok_json (JObj disposable_body)], 0) ([], 0)
              [Fetch "https://api.validkit.com/api/v1/verify"
                 (verifyEmailRequest defaultConfig "ada@tempmail.com"
                    compactOptions) 0]
              {| data := JObj disposable_body; rateLimitOf := None |}
              disposable_body disposable_result H1 H2)
    as (o & Hrun & Hv & Hd & _ & Hr & _);
    try reflexivity; try assumption.
  - exists (JStr "ada@tempmail.com"). reflexivity.
  - exists o. split; [exact Hrun|]. split; [exact Hv|].
    split; [apply Hd; reflexivity | exact Hr].
Defined.

(** ** Rate-limit headers *)

(** C8, as the specification words it, fails on a header that is present
    but not a number: [parseInt] makes it NaN, not 0.  Only an absent or
    empty header reads as 0. *)
Lemma rate_limit_unparsable_counterexample :
  headers_unparsable !! "X-RateLimit-Remaining" = Some "unknown"
  /\ parseInt "unknown" = NaN
  /\ extractRateLimit headers_unparsable
     = Some {| limit := Int 100; remaining := NaN; reset := Int 0;
               retry_after := None |}.
Proof. repeat split; vm_compute; reflexivity. Qed.

(** C8, amended.  Rate Limit Info is derived exactly when the ceiling
    header is present and not empty.  Its ceiling, remaining and reset
    fields are [parseInt] of their header, which is NaN for a value that
    does not start with an integer, and 0 when the header is absent or
    empty.  Its retry-after is [parseInt] of its header when that header
    is present and not empty, and undefined otherwise. *)
Theorem extractRateLimit_fields (h : gmap string string) :
  let field (k : string) (x : num) :=
    (forall v, h !! k = Some v -> v <> "" -> x = parseInt v)
    /\ (h !! k = None \/ h !! k = Some "" -> x = Int 0) in
  (is_Some (extractRateLimit h)
   <-> exists v, h !! "X-RateLimit-Limit" = Some v /\ v <> "")
  /\ forall info,
       extractRateLimit h = Some info ->
       field "X-RateLimit-Limit" (limit info)
       /\ field "X-RateLimit-Remaining" (remaining info)
       /\ field "X-RateLimit-Reset" (reset info)
       /\ (forall v, h !! "Retry-After" = Some v -> v <> "" ->
           retry_after info = Some (parseInt v))
       /\ (h !! "Retry-After" = None \/ h !! "Retry-After" = Some "" ->
           retry_after info = None).
Proof.
  intros field.
  assert (Hfield : forall k, field k (parseInt (or_str (h !! k) "0"))).
  { intros k. split.
    - intros v Hv Hne. rewrite Hv. f_equal.
      apply or_str_spec; [reflexivity | exact Hne].
    - intros [-> | ->]; reflexivity. }
  assert (Htruthy : forall k,
    truthy_header (h !! k) = true <-> exists v, h !! k = Some v /\ v <> "").
  { intros k. unfold truthy_header, truthy_str.
    destruct (h !! k) as [v|].
    - destruct (String.eqb_spec v ""); cbn; split.
      + discriminate.
      + intros (v' & Hv & Hne). congruence.
      + eauto.
      + reflexivity.
    - split; [discriminate | intros (v & Hv & _); discriminate]. }
  unfold extractRateLimit. split.
  - rewrite <- Htruthy.
    destruct (truthy_header (h !! "X-RateLimit-Limit")); split;
      try (intros [? ?]); try discriminate; eauto.
  - intros info Hinfo.
    destruct (truthy_header (h !! "X-RateLimit-Limit")); [|discriminate].
    inversion Hinfo; subst info; clear Hinfo. cbn.
    repeat (split; [apply Hfield|]).
    destruct (truthy_header (h !! "Retry-After")) eqn:Hra.
    + apply Htruthy in Hra as (v & Hv & Hne). rewrite Hv. split.
      * intros v' Hv' _. inversion Hv'; subst v'. reflexivity.
      * intros [? | ?]; congruence.
    + split.
      * intros v Hv Hne.
        assert (truthy_header (h !! "Retry-After") = true)
          by (apply Htruthy; eauto). congruence.
      * reflexivity.
Qed.

Lemma extractRateLimit_fields_witness :
  headers_full !! "X-RateLimit-Limit" = Some "1000"
  /\ "1000" <> ""
  /\ extractRateLimit headers_full
     = Some {| limit := Int 1000; remaining := Int 0; reset := Int 1642000000;
               retry_after := Some (Int 60) |}.
Proof.
  assert (H1 : headers_full !! "X-RateLimit-Limit" = Some "1000") by reflexivity.
  assert (H2 : "1000" <> "") by discriminate.
  split; [exact H1|]. split; [exact H2|].
  destruct (extractRateLimit_fields headers_full) as [Hsome Hfields].
  destruct (proj2 Hsome (ex_intro _ "1000" (conj H1 H2))) as [info Hinfo].
  rewrite Hinfo. f_equal.
  destruct (Hfields info Hinfo) as ((Hl & _) & (Hr & _) & (Hs & _) & Ha & _).
  destruct info as [l r s a]. cbn in *.
  rewrite (Hl "1000" H1 H2).
  rewrite (Hr "0" eq_refl ltac:(discriminate)).
  rewrite (Hs "1642000000" eq_refl ltac:(discriminate)).
  rewrite (Ha "60" eq_refl ltac:(discriminate)).
  reflexivity.
Defined.

(** ** A batch that fits in one chunk *)

Section Coverage.

Variable m : gmap string jsval.

Lemma forEachEmail_dom emails : forall index acc,
  "__proto__" ∉ emails ->
  (forall i, (i < length emails)%nat ->
     exists v, m !! pretty (index + i)%nat = Some v /\ truthy v = true) ->
  dom (forEachEmail (JObj m) emails index acc)
  = (list_to_set emails : gset string) ∪ dom acc.
Proof.
  induction emails as [|email rest IH]; intros index acc Hname Hcover.
  - cbn. set_solver.
  - cbn [forEachEmail].
    apply not_elem_of_cons in Hname as [Hemail Hrest].
    destruct (Hcover 0%nat ltac:(cbn; lia)) as (v & Hv & Ht).
    rewrite Nat.add_0_r in Hv.
    rewrite (truthy_at_index m index v Hv), Ht.
    rewrite assign_insert by congruence.
    rewrite IH.
    + rewrite dom_insert_L. cbn. set_solver.
    + exact Hrest.
    + intros i Hi. destruct (Hcover (S i) ltac:(cbn; lia)) as (w & Hw & Htw).
      exists w. rewrite Nat.add_succ_comm. split; assumption.
Qed.

Lemma compactResult_truthy inner :
  truthy inner = true -> is_Some (compactResult (JObj m) inner).
Proof.
  intros Ht. unfold compactResult.
  destruct inner; try discriminate; cbn; eauto.
Qed.

Lemma forEachResult_dom format emails : forall results acc,
  "__proto__" ∉ emails ->
  Forall2 echoes emails results ->
  exists r,
    forEachResult format (JObj m) results acc = Some r
    /\ dom r = (list_to_set emails : gset string) ∪ dom acc.
Proof.
  induction emails as [|email rest IH]; intros results acc Hname Hcover.
  - inversion Hcover; subst. exists acc. split; [reflexivity|].
    cbn. set_solver.
  - inversion Hcover as [|? entry ? results' Hentry Hrest]; subst.
    apply not_elem_of_cons in Hname as [Hproto Hnames].
    destruct Hentry as (Hne & fields & inner & -> & Hemail & Hinner & Ht).
    cbn [forEachResult getField getFieldOpt mbind option_bind from_option id].
    rewrite Hemail, Hinner. cbn [from_option id truthy toString].
    destruct (String.eqb_spec email ""); [contradiction|]. cbn [negb andb].
    rewrite Ht.
    assert (Hentry : exists entry,
      match format with
      | COMPACT => compactResult (JObj m) inner
      | FULL => Some (fullBatchEntry (JObj m) (JObj fields))
      end = Some entry).
    { destruct format; [eauto|].
      destruct (compactResult_truthy inner Ht) as [entry ->]. eauto. }
    destruct Hentry as [entry ->]. cbn [mbind option_bind].
    rewrite assign_insert by congruence.
    destruct (IH results' (<[email := entry]> acc) Hnames Hrest)
      as (r & -> & Hdom).
    exists r. split; [reflexivity|].
    rewrite Hdom, dom_insert_L. cbn. set_solver.
Qed.

End Coverage.

(** C9, as the specification words it, fails when the one request is
    retried.  Two emails fit in one chunk; the service answers 503 and
    then 200 with an entry for each position.  The batch returns the map
    keyed by the two emails, and it has made two network calls, a second
    apart. *)
Lemma single_chunk_retried_counterexample :
  let run :=
    verifyBatch scripted defaultConfig (Some two_emails) noBatchOptions
      ([service_unavailable; ok_json (indexed [compact_valid; compact_valid])],
       0) in
  0 < Z.of_nat (length two_emails) <= default_chunk_size defaultConfig
  /\ run.1.1
     = Returned (JObj (<["ada@example.com" := compact_valid]>
                        {["bob@example.com" := compact_valid]}))
  /\ fetches run.2 = 2%nat
  /\ sleeps run.2 = [1000].
Proof. vm_compute. repeat split; try reflexivity; discriminate. Qed.

(** C9, amended.  For a list that is not empty, fits in one chunk and
    has, as every batch must, at most 10000 emails, [verifyBatch] hands
    exactly one request to the executor.  The network calls of the batch
    are the attempts of that request: the first and the retries that the
    policy grants, [max_retries + 1] at most, and the first alone when it
    succeeds.  When the request returns an indexed body, the compact
    format having been requested, with a truthy value at every position
    of the list, or an enveloped list whose entries echo the emails of
    the list position by position, the value returned is a map whose key
    set is the set of the emails.  A list that holds the email
    [__proto__] is left out: assigning under that name does not add an
    entry. *)
Theorem verifyBatch_single_chunk (R : Remote) (config : ValidKitConfig)
    (emails : list string) (options : VerifyBatchOptions) (s : Server R) :
  let n := Z.of_nat (length emails) in
  let chunkSize :=
    default (default_chunk_size config) (batch_chunk_size options) in
  let format := default COMPACT (batch_format options) in
  let url := base_url config +:+ "/api/v1/verify/bulk" in
  let request :=
    chunkRequest config emails format (batch_trace_id options)
      (batch_parent_id options) (default false (batch_debug options))
      (batch_share_signals options) in
  0 < n <= chunkSize ->
  n <= 10000 ->
  forall o s' t,
    verifyBatch R config (Some emails) options s = (o, s', t) ->
    o <> Diverged
    /\ milestones t = [Fetch url request 0]
    /\ (1 <= fetches t)%nat
    /\ (0 <= max_retries config ->
        Z.of_nat (fetches t) <= max_retries config + 1)
    /\ (forall d,
        attempt config (fetch R url request s).1 = inr d ->
        t = [Fetch url request 0])
    /\ exists o1,
        makeRequest R config "/api/v1/verify/bulk" request 0 s = (o1, s', t)
        /\ forall response m,
            o1 = Returned response ->
            data response = JObj m ->
            ("__proto__" ∉ emails) ->
            (format = COMPACT ->
             m !! "results" = None ->
             (forall i, (i < length emails)%nat ->
                exists v, m !! pretty i = Some v /\ truthy v = true) ->
             exists r,
               o = Returned (JObj r)
               /\ dom r = (list_to_set emails : gset string))
            /\ (forall results,
                m !! "results" = Some (JArr results) ->
                Forall2 echoes emails results ->
                exists r,
                  o = Returned (JObj r)
                  /\ dom r = (list_to_set emails : gset string)).
Proof.
  intros n chunkSize format url request [Hpos Hfit] Hceil o s' t Hrun.
  unfold verifyBatch, MAX_BATCH_SIZE in Hrun.
  fold n chunkSize format in Hrun.
  destruct (Z.eqb_spec n 0); [lia|].
  destruct (Z.gtb_spec n 10000); [lia|].
  destruct (Z.leb_spec n chunkSize); [|lia].
  apply processBatchChunk_run in Hrun as (Hnd & Hm & o1 & Hreq & Hrel).
  fold request in Hm, Hreq. fold url in Hm.
  destruct (makeRequest_fetches R config _ _ _ _ _ _ Hreq) as (H1 & Hbound & Hone).
  split; [exact Hnd|]. split; [exact Hm|]. split; [exact H1|].
  split; [intros Hmax; lia|]. split; [exact Hone|].
  exists o1. split; [exact Hreq|].
  intros response m -> Hdata Hname. rewrite Hdata in Hrel. split.
  - intros Hformat Hshape Hcover. rewrite Hformat in Hrel.
    exists (forEachEmail (JObj m) emails 0 ∅). split.
    + rewrite Hrel. unfold processBatchChunk_result. cbn.
      rewrite Hshape.
      rewrite bool_decide_eq_false_2 by (intros [? ?]; discriminate).
      reflexivity.
    + rewrite (forEachEmail_dom m emails 0 ∅ Hname Hcover), dom_empty_L.
      apply union_empty_r_L.
  - intros results Hshape Hcover.
    destruct (forEachResult_dom m format emails results ∅ Hname Hcover)
      as (r & Hr & Hdom).
    exists r. split.
    + assert (Hhas : hasProperty "results" (JObj m) = Some true).
      { cbn. rewrite Hshape, bool_decide_eq_true_2 by eauto. reflexivity. }
      assert (Hget : getFieldOpt (JObj m) "results" = JArr results).
      { unfold getFieldOpt. cbn. rewrite Hshape. reflexivity. }
      rewrite Hrel. unfold processBatchChunk_result.
      destruct format; cbn [typeof_object]; rewrite !Hhas;
        cbn [fmap option_fmap option_map negb mbind option_bind];
        rewrite ?Hhas; cbn [mbind option_bind]; rewrite Hget, Hr; reflexivity.
    + rewrite Hdom, dom_empty_L. apply union_empty_r_L.
Qed.

Lemma verifyBatch_single_chunk_witness :
  0 < Z.of_nat (length three_emails) <= 1000
  /\ Z.of_nat (length three_emails) <= 10000
  /\ ("__proto__" ∉ three_emails)
  /\ exists r,
       verifyBatch scripted defaultConfig (Some three_emails) noBatchOptions
         ([ok_json (indexed [compact_valid; compact_valid; compact_valid])], 0)
       = (Returned (JObj r), ([], 0),
          [Fetch "https://api.validkit.com/api/v1/verify/bulk"
             (chunkRequest defaultConfig three_emails COMPACT None None false
                None) 0])
       /\ dom r = (list_to_set three_emails : gset string).
Proof.
  assert (H1 : 0 < Z.of_nat (length three_emails) <= 1000) by (cbn; lia).
  assert (H2 : Z.of_nat (length three_emails) <= 10000) by (cbn; lia).
  assert (H3 : "__proto__" ∉ three_emails).
  { intros Hin.
    repeat (apply elem_of_cons in Hin as [Hin | Hin]; [discriminate Hin|]).
    apply elem_of_nil in Hin. exact Hin. }
  split; [exact H1|]. split; [exact H2|]. split; [exact H3|].
  destruct (verifyBatch scripted defaultConfig (Some three_emails)
              noBatchOptions
              ([ok_json (indexed [compact_valid; compact_valid; compact_valid])],
               0)) as [[o s'] t] eqn:E.
  destruct (verifyBatch_single_chunk scripted defaultConfig three_emails
              noBatchOptions _ H1 H2 o s' t E)
    as (_ & _ & _ & _ & Hone & o1 & Hreq & Hshape).
  rewrite (Hone {| data := indexed [compact_valid; compact_valid; compact_valid];
                   rateLimitOf := None |} eq_refl) in Hreq |- *.
  assert (Hs : s' = ([], 0) /\ o1 = Returned
            {| data := indexed [compact_valid; compact_valid; compact_valid];
               rateLimitOf := None |}).
  { vm_compute in Hreq. inversion Hreq. split; reflexivity. }
  destruct Hs as [-> ->].
  destruct (Hshape _ (list_to_map
              (imap (fun i v => (pretty i, v))
                 [compact_valid; compact_valid; compact_valid]))
              eq_refl eq_refl H3) as [Hindexed _].
  destruct Hindexed as (r & -> & Hdom); [reflexivity | reflexivity | |].
  - intros i Hi. exists compact_valid.
    destruct i as [|[|[|i]]]; cbn in Hi; try lia; split; reflexivity.
  - exists r. split; [reflexivity | exact Hdom].
Defined.

(** ** A success response that is not JSON *)

(** Against a remote that answers every call with a success status and
    a body that is not JSON, the request ends with a connection error. *)
Lemma makeRequest_loop_never_json (R : Remote) (config : ValidKitConfig)
    (endpoint : string) (options : RequestInit) :
  (forall s, exists response s1,
     fetch R (base_url config +:+ endpoint) options s = (Resolved response, s1)
     /\ ok response = true
     /\ exists syntaxError, json response = NotJson syntaxError) ->
  forall fuel retries s o s' t,
    (Z.to_nat (max_retries config - Z.of_nat retries) < fuel)%nat ->
    makeRequest_loop R config fuel endpoint options retries s = (o, s', t) ->
    exists error,
      o = Thrown (Typed error) /\ class error = ConnectionErrorClass.
Proof.
  intros Hremote. induction fuel as [|fuel IH]; intros retries s o s' t Hfuel Hrun;
    [lia|].
  rewrite makeRequest_loop_S in Hrun. cbn zeta in Hrun.
  destruct (Hremote s) as (response & s1 & Hfetch & Hok & msg & Hjson).
  rewrite Hfetch in Hrun. cbn [attempt] in Hrun. rewrite Hok, Hjson in Hrun.
  destruct (shouldRetry config _ retries) eqn:Hretry.
  - apply shouldRetry_spec in Hretry as [Hlt _].
    destruct (makeRequest_loop R config fuel endpoint options (S retries) _)
      as [[o2 s2] t2] eqn:Hrec.
    inversion Hrun; subst. apply IH in Hrec; [exact Hrec | lia].
  - inversion Hrun; subst. eexists. split; reflexivity.
Qed.

(** C10.  An attempt answered by a success status with a body that is not
    JSON ends with a connection error, not with a validation or parse
    error.  The retry policy applies to it as to any connection error:
    below [max_retries] the executor sleeps for the backoff delay and
    calls again, otherwise it throws the connection error.  Against a
    remote that always answers so, the request ends with a connection
    error. *)
Theorem makeRequest_invalid_success_body (R : Remote) (config : ValidKitConfig)
    (endpoint : string) (options : RequestInit) (retries : nat)
    (s s1 : Server R) (response : Response) (syntaxError : string) :
  let url := base_url config +:+ endpoint in
  let error := ConnectionError ("Request failed: " +:+ syntaxError) None in
  fetch R url options s = (Resolved response, s1) ->
  ok response = true ->
  json response = NotJson syntaxError ->
  attempt config (Resolved response) = inl error
  /\ class error = ConnectionErrorClass
  /\ (Z.of_nat retries < max_retries config ->
      shouldRetry config error retries = true
      /\ makeRequest R config endpoint options retries s
         = let delay := Z.min (1000 * 2 ^ Z.of_nat retries) 30000 in
           let '(o, s2, t) :=
             makeRequest R config endpoint options (S retries)
               (elapse R delay s1) in
           (o, s2, Fetch url options retries :: Sleep delay :: t))
  /\ (max_retries config <= Z.of_nat retries ->
      makeRequest R config endpoint options retries s
      = (Thrown (Typed error), s1, [Fetch url options retries]))
  /\ ((forall s0, exists response0 s2,
         fetch R url options s0 = (Resolved response0, s2)
         /\ ok response0 = true
         /\ exists syntaxError0, json response0 = NotJson syntaxError0) ->
      forall o s' t,
        makeRequest R config endpoint options 0 s = (o, s', t) ->
        exists e, o = Thrown (Typed e) /\ class e = ConnectionErrorClass).
Proof.
  intros url error Hfetch Hok Hjson.
  assert (Hattempt : attempt config (Resolved response) = inl error).
  { cbn [attempt]. rewrite Hok, Hjson. reflexivity. }
  assert (Hstep := makeRequest_step R config endpoint options retries s).
  cbn zeta in Hstep. fold url in Hstep. rewrite Hfetch, Hattempt in Hstep.
  split; [exact Hattempt|]. split; [reflexivity|]. split; [|split].
  - intros Hlt.
    assert (Hretry : shouldRetry config error retries = true)
      by (apply shouldRetry_spec; split; [exact Hlt | reflexivity]).
    split; [exact Hretry|]. rewrite Hstep, Hretry. reflexivity.
  - intros Hge.
    assert (Hretry : shouldRetry config error retries = false).
    { destruct (shouldRetry config error retries) eqn:E; [|reflexivity].
      apply shouldRetry_spec in E as [E _]. lia. }
    rewrite Hstep, Hretry. reflexivity.
  - intros Hremote o s' t Hrun. unfold makeRequest in Hrun.
    eapply (makeRequest_loop_never_json R config endpoint options Hremote);
      [|exact Hrun]. lia.
Qed.

Lemma makeRequest_invalid_success_body_witness :
  fetch scripted "https://api.validkit.com/api/v1/verify" sample_request
    ([Resolved no_content; Resolved no_content], 0)
  = (Resolved no_content, ([Resolved no_content], 0))
  /\ ok no_content = true
  /\ json no_content = NotJson "Unexpected end of JSON input"
  /\ Z.of_nat 0 < max_retries one_retry
  /\ makeRequest scripted one_retry "/api/v1/verify" sample_request 0
       ([Resolved no_content; Resolved no_content], 0)
     = (Thrown (Typed (ConnectionError
                         "Request failed: Unexpected end of JSON input" None)),
        ([], 1000),
        [Fetch "https://api.validkit.com/api/v1/verify" sample_request 0;
         Sleep 1000;
         Fetch "https://api.validkit.com/api/v1/verify" sample_request 1]).
Proof.
  assert (H1 : fetch scripted "https://api.validkit.com/api/v1/verify"
                 sample_request ([Resolved no_content; Resolved no_content], 0)
               = (Resolved no_content, ([Resolved no_content], 0)))
    by reflexivity.
  assert (H2 : ok no_content = true) by reflexivity.
  assert (H3 : json no_content = NotJson "Unexpected end of JSON input")
    by reflexivity.
  assert (H4 : Z.of_nat 0 < max_retries one_retry) by (cbn; lia).
  repeat (split; [assumption|]).
  destruct (makeRequest_invalid_success_body scripted one_retry "/api/v1/verify"
              sample_request 0 _ _ no_content _ H1 H2 H3)
    as (_ & _ & Hretry & _).
  destruct (Hretry H4) as [_ ->].
  destruct (makeRequest_invalid_success_body scripted one_retry "/api/v1/verify"
              sample_request 1 ([Resolved no_content], 1000) ([], 1000)
              no_content _ eq_refl H2 H3)
    as (_ & _ & _ & Hstop & _).
  cbn zeta. change (Z.min (1000 * 2 ^ Z.of_nat 0) 30000) with 1000.
  change (elapse scripted 1000 ([Resolved no_content], 0))
    with (([Resolved no_content], 1000) : Server scripted).
  rewrite Hstop by (cbn; lia). reflexivity.
Defined.


(** * Further properties of the client *)

(** ** The shape of a request's run *)

Lemma fromApiResponse_class (response : Response)
    (errorData : option ValidKitErrorDetails) :
  class (fromApiResponse response errorData)
  = status_class (status response)
      (bool_decide (errorData ≫= payload_code = Some "BATCH_SIZE_EXCEEDED")).
Proof.
  unfold fromApiResponse, status_class.
  repeat (match goal with
          | |- context [?a =? ?b] => destruct (a =? b)
          end; cbn [orb]); try reflexivity.
  - destruct (bool_decide _); reflexivity.
  - destruct (errorData ≫= payload_code) as [c|]; [|reflexivity].
    destruct (truthy_str c); reflexivity.
Qed.


Lemma status_class_rate_limit (st : Z) (batch : bool) :
  status_class st batch = RateLimitErrorClass <-> st = 429.
Proof.
  unfold status_class.
  repeat (match goal with
          | |- context [?a =? ?b] => destruct (Z.eqb_spec a b)
          end; cbn [orb]); try destruct batch; split; intros H;
    try discriminate; try reflexivity; try lia.
Qed.

(** The class of the error of a failure response follows from its
    status and the payload's code; attaching the rate-limit headers does
    not change it. *)
Lemma attempt_failure_class (config : ValidKitConfig) (response : Response) :
  ok response = false ->
  exists error,
    attempt config (Resolved response) = inl error
    /\ class error
       = status_class (status response)
           (bool_decide (errorDataOf (json response) ≫= payload_code
                         = Some "BATCH_SIZE_EXCEEDED"))
    /\ (status response <> 429 ->
        error = fromApiResponse response (errorDataOf (json response))).
Proof.
  intros Hok. cbn [attempt]. rewrite Hok.
  pose proof (fromApiResponse_class response (errorDataOf (json response)))
    as Hclass.
  destruct (extractRateLimit (headers response)) as [rl|].
  - unfold instanceof.
    destruct (class (fromApiResponse response (errorDataOf (json response))))
      eqn:E; eexists; (split; [reflexivity|]);
      (split; [cbn; congruence|]); intros Hst; try reflexivity.
    exfalso. apply Hst. eapply status_class_rate_limit. symmetry.
    exact Hclass.
  - eexists. split; [reflexivity|]. split; [exact Hclass | reflexivity].
Qed.

Section Shape.

Variable R : Remote.
Variable config : ValidKitConfig.
Variable endpoint : string.
Variable options : RequestInit.

Let url := base_url config +:+ endpoint.

Lemma fetches_attempts_trace retries delays :
  fetches (attempts_trace url options retries delays) = S (length delays).
Proof.
  revert retries. induction delays as [|d ds IH]; intros retries;
    [reflexivity|].
  cbn [attempts_trace length]. rewrite !fetches_cons, IH. reflexivity.
Qed.

Lemma sleeps_attempts_trace retries delays :
  sleeps (attempts_trace url options retries delays) = delays.
Proof.
  revert retries. induction delays as [|d ds IH]; intros retries;
    [reflexivity|].
  cbn [attempts_trace sleeps omap list_omap]. f_equal. apply IH.
Qed.

(** A request alternates fetches and sleeps, ends with a fetch, and its
    outcome is that of its last attempt, which the policy does not
    retry. *)
Lemma makeRequest_loop_shape fuel :
  forall retries s o s' t,
    (Z.to_nat (max_retries config - Z.of_nat retries) < fuel)%nat ->
    makeRequest_loop R config fuel endpoint options retries s = (o, s', t) ->
    exists delays s0,
      t = attempts_trace url options retries delays
      /\ Z.of_nat (length delays)
         <= Z.max 0 (max_retries config - Z.of_nat retries)
      /\ s' = (fetch R url options s0).2
      /\ match o with
         | Returned d => attempt config (fetch R url options s0).1 = inr d
         | Thrown (Typed e) =>
             attempt config (fetch R url options s0).1 = inl e
             /\ shouldRetry config e (retries + length delays) = false
         | _ => False
         end.
Proof.
  induction fuel as [|fuel IH]; intros retries s o s' t Hfuel Hrun; [lia|].
  rewrite makeRequest_loop_S in Hrun. cbn zeta in Hrun. fold url in Hrun.
  destruct (fetch R url options s) as [result s1] eqn:Hfetch.
  destruct (attempt config result) as [error | d] eqn:Hattempt.
  - destruct (shouldRetry config error retries) eqn:Hretry.
    + apply shouldRetry_spec in Hretry as [Hlt _].
      destruct (makeRequest_loop R config fuel endpoint options (S retries) _)
        as [[o2 s2] t2] eqn:Hrec.
      inversion Hrun; subst o2 s2 t; clear Hrun.
      apply IH in Hrec as (delays & s0 & Ht & Hlen & Hs & Ho); [|lia].
      exists (getRetryDelay error retries (Date_now R s1) :: delays), s0.
      split; [cbn [attempts_trace]; rewrite Ht; reflexivity|].
      split; [cbn [length]; lia|]. split; [exact Hs|].
      destruct o as [d | [e|] |]; try exact Ho.
      cbn [length]. rewrite <- Nat.add_succ_comm. exact Ho.
    + inversion Hrun; subst o s' t; clear Hrun.
      exists [], s. rewrite Hfetch. cbn [fst snd length attempts_trace].
      split; [reflexivity|]. split; [lia|]. split; [reflexivity|].
      rewrite Nat.add_0_r. split; assumption.
  - inversion Hrun; subst o s' t; clear Hrun.
    exists [], s. rewrite Hfetch. cbn [fst snd length attempts_trace].
    split; [reflexivity|]. split; [lia|]. split; [reflexivity|]. exact Hattempt.
Qed.

End Shape.

(** X1.  Every run of the executor is fetch, sleep, fetch, ..., fetch:
    the attempts are numbered 0, 1, 2, ... and all send the same url and
    options; there is one sleep between two attempts and none after the
    last; there are at most [max_retries] sleeps.  The run ends by
    returning data or by throwing a typed error: it never throws a
    TypeError and never fails to end. *)
Theorem makeRequest_trace_shape (R : Remote) (config : ValidKitConfig)
    (endpoint : string) (options : RequestInit) (s s' : Server R)
    (o : Outcome ResponseData) (t : list Event) :
  makeRequest R config endpoint options 0 s = (o, s', t) ->
  exists delays,
    t = attempts_trace (base_url config +:+ endpoint) options 0 delays
    /\ Z.of_nat (length delays) <= Z.max 0 (max_retries config)
    /\ fetches t = S (length (sleeps t))
    /\ ((exists d, o = Returned d) \/ (exists e, o = Thrown (Typed e))).
Proof.
  intros Hrun. unfold makeRequest in Hrun.
  apply makeRequest_loop_shape in Hrun as (delays & s0 & Ht & Hlen & _ & Ho);
    [|lia].
  exists delays. split; [exact Ht|]. split; [lia|]. split.
  - rewrite Ht, fetches_attempts_trace, sleeps_attempts_trace. reflexivity.
  - destruct o as [d | [e|] |]; try contradiction; eauto.
Qed.

Lemma makeRequest_trace_shape_witness :
  makeRequest scripted defaultConfig "/api/v1/verify" sample_request 0
    ([test_429; test_network_error; sample_401], 0)
  = (Thrown (Typed (InvalidAPIKeyError "Invalid API key" None)),
     ([], 62000),
     attempts_trace "https://api.validkit.com/api/v1/verify" sample_request 0
       [60000; 2000])
  /\ exists delays,
       attempts_trace "https://api.validkit.com/api/v1/verify" sample_request 0
         [60000; 2000]
       = attempts_trace "https://api.validkit.com/api/v1/verify" sample_request
           0 delays
       /\ Z.of_nat (length delays) <= 3.
Proof.
  assert (H : makeRequest scripted defaultConfig "/api/v1/verify" sample_request
                0 ([test_429; test_network_error; sample_401], 0)
              = (Thrown (Typed (InvalidAPIKeyError "Invalid API key" None)),
                 ([], 62000),
                 attempts_trace "https://api.validkit.com/api/v1/verify"
                   sample_request 0 [60000; 2000])) by reflexivity.
  split; [exact H|].
  destruct (makeRequest_trace_shape scripted defaultConfig "/api/v1/verify"
              sample_request _ _ _ _ H) as (delays & Ht & Hlen & _).
  exists delays. split; [exact Ht | exact Hlen].
Defined.

(** X2.  What a request returns is the data of its last attempt, and what
    it throws is the typed error of its last attempt.  An error that the
    policy retries (rate limit, timeout, connection, server) is thrown
    only when the budget is spent: the trace then has exactly
    [max_retries + 1] fetches ([1] for a negative [max_retries]). *)
Theorem makeRequest_outcome (R : Remote) (config : ValidKitConfig)
    (endpoint : string) (options : RequestInit) (s s' : Server R)
    (o : Outcome ResponseData) (t : list Event) :
  let url := base_url config +:+ endpoint in
  makeRequest R config endpoint options 0 s = (o, s', t) ->
  exists s0,
    s' = (fetch R url options s0).2
    /\ (forall d, o = Returned d ->
        attempt config (fetch R url options s0).1 = inr d)
    /\ (forall e, o = Thrown (Typed e) ->
        attempt config (fetch R url options s0).1 = inl e
        /\ (retryable (class e) = true ->
            Z.of_nat (fetches t) = Z.max 0 (max_retries config) + 1)).
Proof.
  intros url Hrun. unfold makeRequest in Hrun.
  apply makeRequest_loop_shape in Hrun as (delays & s0 & Ht & Hlen & Hs & Ho);
    [|lia].
  exists s0. split; [exact Hs|]. split.
  - intros d ->. exact Ho.
  - intros e ->. destruct Ho as [Hlast Hstop]. split; [exact Hlast|].
    intros Hclass. rewrite Ht, fetches_attempts_trace.
    assert (Hbudget : ~ Z.of_nat (0 + length delays) < max_retries config).
    { intros Hlt.
      assert (shouldRetry config e (0 + length delays) = true)
        by (apply shouldRetry_spec; split; assumption).
      congruence. }
    lia.
Qed.

Lemma makeRequest_outcome_witness :
  makeRequest scripted one_retry "/api/v1/verify" sample_request 0
    ([test_network_error; test_network_error; ok_json compact_valid], 0)
  = (Thrown (Typed (ConnectionError "Request failed: Network error" None)),
     ([ok_json compact_valid], 1000),
     attempts_trace "https://api.validkit.com/api/v1/verify" sample_request 0
       [1000])
  /\ Z.of_nat
       (fetches
          (attempts_trace "https://api.validkit.com/api/v1/verify"
             sample_request 0 [1000]))
     = Z.max 0 (max_retries one_retry) + 1.
Proof.
  assert (H : makeRequest scripted one_retry "/api/v1/verify" sample_request 0
                ([test_network_error; test_network_error;
                  ok_json compact_valid], 0)
              = (Thrown (Typed (ConnectionError "Request failed: Network error"
                                  None)),
                 ([ok_json compact_valid], 1000),
                 attempts_trace "https://api.validkit.com/api/v1/verify"
                   sample_request 0 [1000])) by reflexivity.
  split; [exact H|].
  destruct (makeRequest_outcome scripted one_retry "/api/v1/verify"
              sample_request _ _ _ _ H) as (s0 & _ & _ & Hthrown).
  destruct (Hthrown _ eq_refl) as [_ Hbudget]. apply Hbudget. reflexivity.
Defined.



(** ** The backoff schedule *)

Section Schedule.

Variable R : Remote.
Variable config : ValidKitConfig.
Variable endpoint : string.
Variable options : RequestInit.

Let url := base_url config +:+ endpoint.

Hypothesis never_429 :
  forall s0 response s1,
    fetch R url options s0 = (Resolved response, s1) -> status response <> 429.

Lemma attempt_not_rate_limit s0 error :
  attempt config (fetch R url options s0).1 = inl error ->
  class error <> RateLimitErrorClass.
Proof.
  destruct (fetch R url options s0) as [result s1] eqn:Hfetch. cbn [fst].
  destruct result as [response | errName errMessage].
  - pose proof (never_429 _ _ _ Hfetch) as Hst.
    destruct (ok response) eqn:Hok.
    + cbn [attempt]. rewrite Hok. destruct (json response); [discriminate|].
      intros H; inversion H; subst. discriminate.
    + destruct (attempt_failure_class config response Hok)
        as (e & He & Hclass & _).
      rewrite He. intros H; inversion H; subst e. rewrite Hclass.
      intros Hrl. apply Hst. eapply status_class_rate_limit. exact Hrl.
  - cbn [attempt]. destruct (String.eqb errName "AbortError");
      intros H; inversion H; subst; discriminate.
Qed.

Lemma makeRequest_loop_schedule fuel :
  forall retries s o s' t,
    makeRequest_loop R config fuel endpoint options retries s = (o, s', t) ->
    sleeps t = backoff <$> seq retries (length (sleeps t)).
Proof.
  induction fuel as [|fuel IH]; intros retries s o s' t Hrun.
  - cbn in Hrun. inversion Hrun. reflexivity.
  - rewrite makeRequest_loop_S in Hrun. cbn zeta in Hrun. fold url in Hrun.
    pose proof (attempt_not_rate_limit s) as Hclass.
    destruct (fetch R url options s) as [result s1]. cbn [fst] in Hclass.
    destruct (attempt config result) as [error | d].
    + destruct (shouldRetry config error retries).
      * destruct (makeRequest_loop R config fuel endpoint options (S retries) _)
          as [[o2 s2] t2] eqn:Hrec.
        inversion Hrun; subst o2 s2 t; clear Hrun.
        apply IH in Hrec. cbn [sleeps omap list_omap length seq fmap list_fmap].
        fold (sleeps t2). rewrite <- Hrec. f_equal.
        unfold getRetryDelay, instanceof, backoff.
        specialize (Hclass error eq_refl).
        destruct (class error); try reflexivity. contradiction.
      * inversion Hrun. reflexivity.
    + inversion Hrun. reflexivity.
Qed.

End Schedule.

Lemma backoff_bounds (k : nat) : 1000 <= backoff k <= 30000.
Proof.
  unfold backoff, RETRY_BASE_DELAY, MAX_RETRY_DELAY.
  assert (0 < 2 ^ Z.of_nat k) by (apply Z.pow_pos_nonneg; lia).
  lia.
Qed.

Lemma sum_backoff_le (ks : list nat) :
  sum_list (backoff <$> ks) <= 30000 * Z.of_nat (length ks).
Proof.
  induction ks as [|k ks IH]; [cbn; lia|].
  cbn [fmap list_fmap sum_list foldr length]. fold (sum_list (backoff <$> ks)).
  pose proof (backoff_bounds k). lia.
Qed.

(** X4.  Against a remote that never answers 429, the sleeps of a
    request are the backoff schedule, in order: 1000, 2000, 4000, 8000,
    16000, then 30000 each, one per retry.  No sleep exceeds 30000 ms and
    the request sleeps no more than [30000 * max_retries] ms in all. *)
Theorem backoff_schedule (R : Remote) (config : ValidKitConfig)
    (endpoint : string) (options : RequestInit) (s s' : Server R)
    (o : Outcome ResponseData) (t : list Event) :
  (forall s0 response s1,
     fetch R (base_url config +:+ endpoint) options s0 = (Resolved response, s1)
     -> status response <> 429) ->
  makeRequest R config endpoint options 0 s = (o, s', t) ->
  sleeps t = backoff <$> seq 0 (fetches t - 1)
  /\ Forall (fun d => 1000 <= d <= 30000) (sleeps t)
  /\ sum_list (sleeps t) <= 30000 * Z.max 0 (max_retries config).
Proof.
  intros Hremote Hrun.
  pose proof (makeRequest_loop_schedule R config endpoint options Hremote
                _ _ _ _ _ _ Hrun) as Hsched.
  unfold makeRequest in Hrun.
  apply makeRequest_loop_shape in Hrun as (delays & s0 & Ht & Hlen & _); [|lia].
  assert (Hn : (fetches t - 1)%nat = length (sleeps t)).
  { rewrite Ht, fetches_attempts_trace, sleeps_attempts_trace. lia. }
  rewrite Hn. split; [exact Hsched|]. split.
  - rewrite Hsched. apply Forall_fmap, Forall_forall. intros k _.
    apply backoff_bounds.
  - rewrite Hsched at 1.
    pose proof (sum_backoff_le (seq 0 (length (sleeps t)))) as Hsum.
    rewrite length_seq in Hsum.
    rewrite Ht, sleeps_attempts_trace in Hsum |- *. lia.
Qed.

Lemma backoff_schedule_witness :
  (forall s0 response s1,
     fetch unreachable (base_url defaultConfig +:+ "/api/v1/verify")
       sample_request s0 = (Resolved response, s1) ->
     status response <> 429)
  /\ makeRequest unreachable defaultConfig "/api/v1/verify" sample_request 0 0
     = (Thrown (Typed (ConnectionError "Request failed: Failed to fetch" None)),
        7000,
        attempts_trace "https://api.validkit.com/api/v1/verify" sample_request
          0 [1000; 2000; 4000])
  /\ sleeps
       (attempts_trace "https://api.validkit.com/api/v1/verify" sample_request
          0 [1000; 2000; 4000])
     = backoff <$> seq 0 3.
Proof.
  assert (H1 : forall s0 response s1,
             fetch unreachable (base_url defaultConfig +:+ "/api/v1/verify")
               sample_request s0 = (Resolved response, s1) ->
             status response <> 429) by (intros s0 response s1 H; discriminate).
  assert (H2 : makeRequest unreachable defaultConfig "/api/v1/verify"
                 sample_request 0 0
               = (Thrown (Typed (ConnectionError
                                   "Request failed: Failed to fetch" None)),
                  7000,
                  attempts_trace "https://api.validkit.com/api/v1/verify"
                    sample_request 0 [1000; 2000; 4000])) by reflexivity.
  split; [exact H1|]. split; [exact H2|].
  destruct (backoff_schedule unreachable defaultConfig "/api/v1/verify"
              sample_request _ _ _ _ H1 H2) as [Hs _].
  exact Hs.
Defined.

(** ** The wait after a 429 *)

Lemma status_429_not_ok (response : Response) :
  status response = 429 -> ok response = false.
Proof. intros H. unfold ok. rewrite H. reflexivity. Qed.

Lemma fromApiResponse_429 (response : Response)
    (errorData : option ValidKitErrorDetails) :
  status response = 429 ->
  fromApiResponse response errorData
  = RateLimitError (or_str (errorData ≫= payload_message) "Rate limit exceeded")
      (errorData ≫= payload_details).
Proof. intros H. unfold fromApiResponse. rewrite H. reflexivity. Qed.

(** The wait of a rate-limit error to which header info was attached
    looks at that info's retry-after only. *)
Lemma getRetryDelay_attached (error : ValidKitError) (info : RateLimitInfo)
    (t : Z) :
  RateLimitError_getRetryDelay (attachRateLimit error info) t
  = match truthy_value (retry_after info) with
    | Some s => s * 1000
    | None =>
        match truthy_value (details error ≫= d_retry_after) with
        | Some s => s * 1000
        | None =>
            match truthy_value (rateLimit error ≫= retry_after) with
            | Some s => s * 1000
            | None =>
                match truthy_value (reset <$> rateLimit error) with
                | Some r => Z.max 0 (r * 1000 - t)
                | None => 60000
                end
            end
        end
    end.
Proof. reflexivity. Qed.



(** X6.  The wait after a 429 depends on the response only through its
    body, the presence of its ceiling header and its [Retry-After]
    header: two 429 responses that agree on these are followed by the
    same wait.  The reset and remaining headers never change it. *)
Theorem rate_limit_wait_ignores_reset (config : ValidKitConfig)
    (response response' : Response) (k : nat) (t : Z) :
  status response = 429 ->
  status response' = 429 ->
  json response = json response' ->
  headers response !! "X-RateLimit-Limit"
    = headers response' !! "X-RateLimit-Limit" ->
  headers response !! "Retry-After" = headers response' !! "Retry-After" ->
  exists error error',
    attempt config (Resolved response) = inl error
    /\ attempt config (Resolved response') = inl error'
    /\ getRetryDelay error k t = getRetryDelay error' k t.
Proof.
  intros Hst Hst' Hjson Hlimit Hafter. cbn [attempt].
  rewrite (status_429_not_ok response Hst), (status_429_not_ok response' Hst').
  rewrite (fromApiResponse_429 response _ Hst).
  rewrite (fromApiResponse_429 response' _ Hst'). rewrite <- Hjson.
  unfold extractRateLimit. rewrite <- Hlimit, <- Hafter.
  destruct (truthy_header (headers response !! "X-RateLimit-Limit")).
  - eexists. eexists. split; [reflexivity|]. split; [reflexivity|].
    unfold getRetryDelay, instanceof. cbn [class attachRateLimit RateLimitError].
    rewrite !getRetryDelay_attached. reflexivity.
  - eexists. eexists. split; [reflexivity|]. split; [reflexivity|].
    reflexivity.
Qed.

Lemma rate_limit_wait_ignores_reset_witness :
  status (limited_until "1642000000") = 429
  /\ status (limited_until "4102444800") = 429
  /\ exists error error',
       attempt defaultConfig (Resolved (limited_until "1642000000")) = inl error
       /\ attempt defaultConfig (Resolved (limited_until "4102444800"))
          = inl error'
       /\ getRetryDelay error 0 1700000000000
          = getRetryDelay error' 0 1700000000000.
Proof.
  assert (H1 : status (limited_until "1642000000") = 429) by reflexivity.
  assert (H2 : status (limited_until "4102444800") = 429) by reflexivity.
  split; [exact H1|]. split; [exact H2|].
  apply (rate_limit_wait_ignores_reset defaultConfig
           (limited_until "1642000000") (limited_until "4102444800") 0
           1700000000000 H1 H2); reflexivity.
Defined.

(** ** The status code of an error *)

Lemma or_str_nonempty (o : option string) (d : string) :
  d <> "" -> or_str o d <> "".
Proof.
  intros Hd. unfold or_str, truthy_str. destruct o as [m|]; [|exact Hd].
  destruct (String.eqb_spec m ""); [exact Hd | assumption].
Qed.

(** X7.  The error built from a response keeps the detail map of the
    payload.  Except in the generic class it carries the fixed status
    code of its class, not the status of the response: a 504 gives
    [statusCode] 408, a 502 or a 503 gives 500.  The generic class keeps
    the status of the response. *)
Theorem fromApiResponse_status_code (response : Response)
    (errorData : option ValidKitErrorDetails) :
  let error := fromApiResponse response errorData in
  details error = errorData ≫= payload_details
  /\ statusCode error
     = Some (class_statusCode (class error) (status response))
  /\ (status response = 504 -> statusCode error = Some 408)
  /\ (status response = 502 \/ status response = 503 ->
      statusCode error = Some 500)
  /\ (class error = ValidKitErrorClass ->
      statusCode error = Some (status response)).
Proof.
  intros error. subst error. unfold fromApiResponse.
  assert (Hgeneric : forall (msg : string) (e : ValidKitError),
    e = newValidKitError msg (Some (status response))
          (errorData ≫= payload_details) "VALIDKIT_ERROR" ->
    forall e' : ValidKitError,
      e' = match errorData ≫= payload_code with
           | Some c =>
               if truthy_str c
               then {| class := class e; message := message e; code := c;
                       statusCode := statusCode e; details := details e;
                       rateLimit := rateLimit e |}
               else e
           | None => e
           end ->
      details e' = errorData ≫= payload_details
      /\ statusCode e' = Some (status response)
      /\ class e' = ValidKitErrorClass).
  { intros msg e -> e' ->.
    destruct (errorData ≫= payload_code) as [c|]; [destruct (truthy_str c)|];
      cbn; repeat split. }
  cbv zeta.
  repeat (match goal with
          | |- context [?a =? ?b] => destruct (Z.eqb_spec a b)
          end; cbn [orb]);
    try (destruct (bool_decide _));
    try (unfold InvalidAPIKeyError, RateLimitError, BatchSizeError,
           ValidationError, TimeoutError, ServerError;
         cbn [details statusCode class class_statusCode];
         split; [reflexivity|]; split; [reflexivity|];
         split; [intros; first [reflexivity | lia]|];
         split; [intros; first [reflexivity | lia]|];
         intros; discriminate).
  match goal with
  | |- context [newValidKitError ?msg _ _ _] =>
      destruct (Hgeneric msg _ eq_refl _ eq_refl) as (Hd & Hs & Hc)
  end.
  split; [exact Hd|].
  rewrite Hc. cbn [class_statusCode].
  split; [exact Hs|]. split; [lia|]. split; [lia|]. intros _. exact Hs.
Qed.

Lemma fromApiResponse_status_code_witness :
  status gateway_timeout = 504
  /\ statusCode (fromApiResponse gateway_timeout
                   (errorDataOf (json gateway_timeout))) = Some 408.
Proof.
  assert (H : status gateway_timeout = 504) by reflexivity.
  split; [exact H|].
  destruct (fromApiResponse_status_code gateway_timeout
              (errorDataOf (json gateway_timeout))) as (_ & _ & H504 & _).
  exact (H504 H).
Defined.

(** ** The constructor *)

Lemma or_num_nonzero (o : option Z) (d : Z) : d <> 0 -> or_num o d <> 0.
Proof.
  intros Hd. unfold or_num. destruct o as [z|]; [|exact Hd].
  destruct (Z.eqb_spec z 0); [exact Hd | assumption].
Qed.

(** X8.  The constructor throws an invalid-API-key error exactly when the
    key is empty.  Otherwise the client it builds never has a zero
    timeout, retry count or chunk size, nor an empty base url: a value
    given as 0 or as the empty string is replaced by the default like a
    missing one.  In particular [max_retries: 0] gives a client that
    retries 3 times. *)
Theorem newValidKit_defaults (options : ValidKitOptions) :
  (opt_api_key options = "" ->
   exists error,
     newValidKit options = inl error /\ class error = InvalidAPIKeyErrorClass)
  /\ (opt_api_key options <> "" ->
      exists config,
        newValidKit options = inr config
        /\ api_key config = opt_api_key options
        /\ max_retries config <> 0
        /\ timeout config <> 0
        /\ default_chunk_size config <> 0
        /\ base_url config <> ""
        /\ (opt_max_retries options = None \/ opt_max_retries options = Some 0 ->
            max_retries config = 3)
        /\ (forall z, opt_max_retries options = Some z -> z <> 0 ->
            max_retries config = z)).
Proof.
  unfold newValidKit, truthy_str. split.
  - intros ->. eexists. split; reflexivity.
  - intros Hkey. destruct (String.eqb_spec (opt_api_key options) "");
      [contradiction|].
    eexists. split; [reflexivity|]. cbn.
    split; [reflexivity|].
    split; [apply or_num_nonzero; lia|].
    split; [apply or_num_nonzero; unfold DEFAULT_TIMEOUT; lia|].
    split; [apply or_num_nonzero; unfold DEFAULT_CHUNK_SIZE; lia|].
    split; [apply or_str_nonempty; discriminate|].
    split.
    + intros [-> | ->]; reflexivity.
    + intros z -> Hz. unfold or_num. destruct (Z.eqb_spec z 0);
        [contradiction | reflexivity].
Qed.

Lemma newValidKit_defaults_witness :
  opt_api_key zero_retries <> ""
  /\ opt_max_retries zero_retries = Some 0
  /\ newValidKit zero_retries = inr defaultConfig
  /\ fetches
       (makeRequest unreachable defaultConfig "/api/v1/verify" sample_request
          0 0).2 = 4%nat.
Proof.
  assert (H1 : opt_api_key zero_retries <> "") by discriminate.
  assert (H2 : opt_max_retries zero_retries = Some 0) by reflexivity.
  split; [exact H1|]. split; [exact H2|].
  destruct (newValidKit_defaults zero_retries) as [_ H].
  destruct (H H1) as (config & Hnew & _ & _ & _ & _ & _ & Hzero & _).
  pose proof (Hzero (or_intror H2)) as Hmax.
  split; [reflexivity | reflexivity].
Defined.

(** ** The operations that return the body as it is *)

Lemma bind_data (R : Remote) (m : Server R -> Outcome ResponseData * Server R * list Event)
    (s : Server R) :
  bind m (fun response => ret (data response)) s = passes_data (m s).
Proof.
  unfold bind, passes_data, ret.
  destruct (m s) as [[o s'] t]. destruct o; [|reflexivity|reflexivity].
  rewrite app_nil_r. reflexivity.
Qed.

Lemma makeRequest_typed (R : Remote) (config : ValidKitConfig)
    (endpoint : string) (options : RequestInit) (s : Server R) :
  match (makeRequest R config endpoint options 0 s).1.1 with
  | Returned _ | Thrown (Typed _) => True
  | _ => False
  end.
Proof.
  destruct (makeRequest R config endpoint options 0 s) as [[o s'] t] eqn:E.
  unfold makeRequest in E.
  apply makeRequest_loop_shape in E as (delays & s0 & _ & _ & _ & Ho); [|lia].
  cbn. destruct o as [d | [e|] |]; try contradiction; exact I.
Qed.

(** An operation that passes the data on makes one request, ends, and
    throws typed errors only. *)
Lemma passes_data_run (R : Remote) (config : ValidKitConfig)
    (endpoint : string) (options : RequestInit) (s : Server R) :
  let result := passes_data (makeRequest R config endpoint options 0 s) in
  milestones result.2 = [Fetch (base_url config +:+ endpoint) options 0]
  /\ result.1.1 <> Diverged
  /\ result.1.1 <> Thrown TypeError.
Proof.
  pose proof (makeRequest_typed R config endpoint options s) as Htyped.
  destruct (makeRequest R config endpoint options 0 s) as [[o s'] t] eqn:E.
  apply makeRequest_milestones in E. cbn in *.
  split; [exact E|].
  destruct o as [d | [e|] |]; try contradiction; split; discriminate.
Qed.

(** X9.  [verifyBatchAgent] and [verifyBatchAsync] send the whole list
    in one request to the agent endpoint, whatever its length: there is
    no ceiling of 10000 and no chunking.  They return the body of the
    response unchanged, and throw typed errors only.  The asynchronous
    one always sends [async: true], the synchronous one never sends an
    [async] field. *)
Theorem agent_batch_single_request (R : Remote) (config : ValidKitConfig)
    (emails : list string) (options : VerifyBatchOptions)
    (async_options : VerifyBatchAsyncOptions) (s : Server R) :
  let endpoint := "/api/v1/verify/bulk/agent" in
  let sync := agentRequest config emails options in
  let async := asyncRequest config emails async_options in
  emails <> [] ->
  verifyBatchAgent R config (Some emails) options s
  = passes_data (makeRequest R config endpoint sync 0 s)
  /\ verifyBatchAsync R config (Some emails) async_options s
     = passes_data (makeRequest R config endpoint async 0 s)
  /\ milestones (verifyBatchAgent R config (Some emails) options s).2
     = [Fetch (base_url config +:+ endpoint) sync 0]
  /\ milestones (verifyBatchAsync R config (Some emails) async_options s).2
     = [Fetch (base_url config +:+ endpoint) async 0]
  /\ (verifyBatchAgent R config (Some emails) options s).1.1 <> Thrown TypeError
  /\ (verifyBatchAsync R config (Some emails) async_options s).1.1
     <> Thrown TypeError
  /\ (exists fields,
        body sync = Some (JObj fields)
        /\ fields !! "emails" = Some (JArr (JStr <$> emails))
        /\ fields !! "async" = None)
  /\ (exists fields,
        body async = Some (JObj fields)
        /\ fields !! "emails" = Some (JArr (JStr <$> emails))
        /\ fields !! "async" = Some (JBool true)).
Proof.
  intros endpoint sync async Hne.
  assert (Hlen : (Z.of_nat (length emails) =? 0) = false).
  { apply Z.eqb_neq. destruct emails; [contradiction|]. cbn [length]. lia. }
  assert (Hsync : verifyBatchAgent R config (Some emails) options s
                  = passes_data (makeRequest R config endpoint sync 0 s)).
  { unfold verifyBatchAgent. rewrite Hlen. apply bind_data. }
  assert (Hasync : verifyBatchAsync R config (Some emails) async_options s
                   = passes_data (makeRequest R config endpoint async 0 s)).
  { unfold verifyBatchAsync. rewrite Hlen. apply bind_data. }
  destruct (passes_data_run R config endpoint sync s) as (Hm1 & _ & Ht1).
  destruct (passes_data_run R config endpoint async s) as (Hm2 & _ & Ht2).
  split; [exact Hsync|]. split; [exact Hasync|].
  rewrite Hsync, Hasync.
  split; [exact Hm1|]. split; [exact Hm2|].
  split; [exact Ht1|]. split; [exact Ht2|].
  split.
  - eexists. split; [reflexivity|].
    unfold spreadShareSignals.
    destruct (batch_share_signals options); split; lookup_keys.
  - eexists. split; [reflexivity|]. split; lookup_keys.
Qed.

Lemma agent_batch_single_request_witness :
  too_many_emails <> []
  /\ Z.of_nat (length too_many_emails) = 10001
  /\ (verifyBatchAgent scripted defaultConfig (Some too_many_emails)
        noBatchOptions ([ok_json compact_valid], 0)).1.1
     = Returned compact_valid
  /\ fetches
       (verifyBatchAgent scripted defaultConfig (Some too_many_emails)
          noBatchOptions ([ok_json compact_valid], 0)).2 = 1%nat.
Proof.
  assert (H : too_many_emails <> []) by (vm_compute; discriminate).
  split; [exact H|]. split; [reflexivity|].
  destruct (agent_batch_single_request scripted defaultConfig too_many_emails
              noBatchOptions noAsyncOptions ([ok_json compact_valid], 0) H)
    as (Hrun & _).
  rewrite Hrun. split; reflexivity.
Defined.

(** X10.  The three job operations reject an empty job id with a
    validation error, without calling the service.  With any other id each
    makes one request and returns the body of the response unchanged:
    status and cancellation go to the same path, with GET and DELETE, the
    results to that path followed by [/results]; all three send the base
    headers and no body, and throw typed errors only. *)
Theorem job_operations (R : Remote) (config : ValidKitConfig)
    (jobId : string) (s : Server R) :
  let rejected : Outcome jsval * Server R * list Event :=
    (Thrown (Typed (ValidationError "Job ID is required" None)), s, []) in
  let path := "/api/v1/batch/" +:+ jobId in
  let request (endpoint method : string) :=
    passes_data (makeRequest R config endpoint (jobRequest config method) 0 s) in
  (jobId = "" ->
   getBatchJob R config jobId s = rejected
   /\ getBatchResults R config jobId s = rejected
   /\ cancelBatchJob R config jobId s = rejected)
  /\ (jobId <> "" ->
      getBatchJob R config jobId s = request path "GET"
      /\ getBatchResults R config jobId s = request (path +:+ "/results") "GET"
      /\ cancelBatchJob R config jobId s = request path "DELETE"
      /\ forall endpoint method,
           milestones (request endpoint method).2
           = [Fetch (base_url config +:+ endpoint)
                {| method := method; req_headers := baseHeaders config;
                   body := None |} 0]
           /\ (request endpoint method).1.1 <> Diverged
           /\ (request endpoint method).1.1 <> Thrown TypeError).
Proof.
  intros rejected path request. split.
  - intros ->. repeat split.
  - intros Hne.
    unfold getBatchJob, getBatchResults, cancelBatchJob, truthy_str.
    destruct (String.eqb_spec jobId ""); [contradiction|]. cbn [negb].
    rewrite !bind_data.
    split; [reflexivity|]. split; [reflexivity|]. split; [reflexivity|].
    intros endpoint method.
    exact (passes_data_run R config endpoint (jobRequest config method) s).
Qed.

Lemma job_operations_witness :
  "job_123" <> ""
  /\ cancelBatchJob scripted defaultConfig "job_123"
       ([ok_json (JObj {["status" := JStr "cancelled"]})], 0)
     = (Returned (JObj {["status" := JStr "cancelled"]}), ([], 0),
        [Fetch "https://api.validkit.com/api/v1/batch/job_123"
           (jobRequest defaultConfig "DELETE") 0]).
Proof.
  assert (H : "job_123" <> "") by discriminate.
  split; [exact H|].
  destruct (job_operations scripted defaultConfig "job_123"
              ([ok_json (JObj {["status" := JStr "cancelled"]})], 0))
    as [_ Hjob].
  destruct (Hjob H) as (_ & _ & Hcancel & _).
  rewrite Hcancel. reflexivity.
Defined.

(** ** TypeErrors of the single verification *)

Lemma hasProperty_obj (name : string) (m : gmap string jsval) :
  hasProperty name (JObj m)
  = Some (match m !! name with Some _ => true | None => false end).
Proof.
  cbn. f_equal. destruct (m !! name).
  - apply bool_decide_eq_true_2. eauto.
  - apply bool_decide_eq_false_2. apply is_Some_None.
Qed.

Lemma verifyEmail_result_None (format : ResponseFormat) (apiResponse : jsval) :
  verifyEmail_result format apiResponse = None
  <-> unusable_body apiResponse = true.
Proof.
  destruct apiResponse as [| | b | n | str | l | m];
    try (cbn; split; [reflexivity | reflexivity]);
    try (cbn; split; discriminate).
  unfold verifyEmail_result, unusable_body.
  rewrite !hasProperty_obj. cbn [getField].
  destruct (m !! "result") as [r|], (m !! "email") as [e|];
    cbn [andb mbind option_bind from_option id];
    try (split; discriminate).
  unfold compactResult, fullResult.
  destruct r, format; cbn; split; intros H; try reflexivity; discriminate.
Qed.

(** X11.  A single verification throws a TypeError, which is not an
    error of the SDK, exactly when its request has returned a body that is
    a primitive or [null], or an object with an [email] field whose
    [result] is [null].  Looking at the body makes no call: the trace and
    the state of the service are those of the request. *)
Theorem verifyEmail_type_error (R : Remote) (config : ValidKitConfig)
    (email : string) (options : VerifyEmailOptions) (s : Server R) :
  let run :=
    makeRequest R config "/api/v1/verify"
      (verifyEmailRequest config email options) 0 s in
  let result := verifyEmail R config email options s in
  email <> "" ->
  result.2 = run.2
  /\ result.1.2 = run.1.2
  /\ result.1.1 <> Diverged
  /\ (result.1.1 = Thrown TypeError
      <-> exists response,
            run.1.1 = Returned response
            /\ unusable_body (data response) = true).
Proof.
  intros run result Hne. subst result.
  rewrite (verifyEmail_run R config email options s Hne). fold run.
  pose proof (makeRequest_typed R config "/api/v1/verify"
                (verifyEmailRequest config email options) s) as Htyped.
  fold run in Htyped.
  destruct run as [[o s'] t]. cbn [fst snd] in *.
  destruct o as [response | [e|] |]; try contradiction.
  - pose proof (verifyEmail_result_None (default FULL (email_format options))
                  (data response)) as Hnone.
    destruct (verifyEmail_result _ (data response)) as [v|]; cbn [fst snd].
    + split; [reflexivity|]. split; [reflexivity|]. split; [discriminate|].
      split; [discriminate|].
      intros (response' & Heq & Hbad). inversion Heq; subst response'.
      apply Hnone in Hbad. discriminate.
    + split; [reflexivity|]. split; [reflexivity|]. split; [discriminate|].
      split; [|reflexivity].
      intros _. exists response. split; [reflexivity|]. apply Hnone. reflexivity.
  - cbn [fst snd]. split; [reflexivity|]. split; [reflexivity|].
    split; [discriminate|]. split; [discriminate|].
    intros (response' & Heq & _). discriminate.
Qed.

Lemma verifyEmail_type_error_witness :
  "ada@example.com" <> ""
  /\ unusable_body null_result_body = true
  /\ verifyEmail scripted defaultConfig "ada@example.com" compactOptions
       ([ok_json null_result_body], 0)
     = (Thrown TypeError, ([], 0),
        [Fetch "https://api.validkit.com/api/v1/verify"
           (verifyEmailRequest defaultConfig "ada@example.com" compactOptions)
           0]).
Proof.
  assert (H : "ada@example.com" <> "") by discriminate.
  split; [exact H|]. split; [reflexivity|].
  destruct (verifyEmail_type_error scripted defaultConfig "ada@example.com"
              compactOptions ([ok_json null_result_body], 0) H)
    as (Ht & Hs & _ & Hiff).
  destruct (verifyEmail scripted defaultConfig "ada@example.com" compactOptions
              ([ok_json null_result_body], 0)) as [[o s'] t].
  cbn [fst snd] in Ht, Hs, Hiff.
  rewrite Ht, Hs.
  rewrite (proj2 Hiff).
  - reflexivity.
  - eexists. split; reflexivity.
Defined.

(** ** The normaliser applied twice *)

Lemma verifyEmail_result_without (format : ResponseFormat)
    (o : gmap string jsval) :
  o !! "result" = None -> verifyEmail_result format (JObj o) = Some (JObj o).
Proof.
  intros Hnone. unfold verifyEmail_result.
  rewrite !hasProperty_obj, Hnone. reflexivity.
Qed.

Lemma compactResult_keys (apiResponse result v : jsval) :
  compactResult apiResponse result = Some v ->
  exists o,
    v = JObj o
    /\ dom o ⊆ ({["v"; "d"; "trace_id"]} : gset string)
    /\ is_Some (o !! "v").
Proof.
  unfold compactResult, spreadIf. intros H.
  destruct (getField result "valid") as [valid|]; [|discriminate].
  destruct (getField result "disposable") as [disposable|]; [|discriminate].
  cbn in H. inversion H; subst v; clear H.
  eexists. split; [reflexivity|].
  destruct (truthy (getFieldOpt apiResponse "trace_id")),
    (truthy (getFieldOpt disposable "value"));
    rewrite ?dom_insert_L, ?dom_singleton_L;
    (split; [set_solver|]); eexists; lookup_keys.
Qed.

Lemma fullResult_keys (apiResponse result v : jsval) :
  fullResult apiResponse result = Some v ->
  exists o, v = JObj o /\ o !! "result" = None.
Proof.
  unfold fullResult. intros H.
  destruct (getField result "valid") as [valid|]; [|discriminate].
  cbn in H. inversion H; subst v; clear H.
  eexists. split; [reflexivity|].
  cbn [list_to_map foldr fst snd uncurry]. unfold list_to_map. cbn [foldr fst snd].
  repeat (rewrite lookup_insert_ne by discriminate).
  apply lookup_empty.
Qed.

(** X12.  The normaliser of [verifyEmail] is idempotent: what it makes
    of a body it leaves unchanged when applied again, in either format.
    A result that has been normalised can be passed through it a second
    time without harm. *)
Theorem verifyEmail_result_idempotent (format format' : ResponseFormat)
    (apiResponse normalised : jsval) :
  verifyEmail_result format apiResponse = Some normalised ->
  verifyEmail_result format' normalised = Some normalised.
Proof.
  intros H.
  destruct apiResponse as [| | b | n | str | l | m]; try discriminate.
  { cbn in H. inversion H. reflexivity. }
  unfold verifyEmail_result in H |- *. rewrite !hasProperty_obj in H.
  destruct (m !! "result") as [r|] eqn:Hr;
    [destruct (m !! "email") as [e|] eqn:He|];
    cbn [andb mbind option_bind] in H.
  - cbn [getField mbind option_bind] in H. rewrite Hr in H.
    cbn [from_option id] in H.
    destruct format.
    + apply fullResult_keys in H as (o & -> & Ho).
      apply verifyEmail_result_without. exact Ho.
    + apply compactResult_keys in H as (o & -> & Hdom & _).
      apply verifyEmail_result_without.
      apply not_elem_of_dom. intros Hin. apply Hdom in Hin. set_solver.
  - inversion H; subst normalised.
    rewrite !hasProperty_obj, Hr, He. reflexivity.
  - inversion H; subst normalised.
    rewrite !hasProperty_obj, Hr. reflexivity.
Qed.

Lemma verifyEmail_result_idempotent_witness :
  verifyEmail_result COMPACT (JObj disposable_body)
  = Some (JObj (<["v" := JBool true]> {["d" := JBool true]}))
  /\ verifyEmail_result FULL (JObj (<["v" := JBool true]> {["d" := JBool true]}))
     = Some (JObj (<["v" := JBool true]> {["d" := JBool true]})).
Proof.
  assert (H : verifyEmail_result COMPACT (JObj disposable_body)
              = Some (JObj (<["v" := JBool true]> {["d" := JBool true]})))
    by (vm_compute; reflexivity).
  split; [exact H|].
  exact (verifyEmail_result_idempotent COMPACT FULL _ _ H).
Defined.

(** ** Enveloped result lists *)







(** ** A chunked batch that fails *)

Lemma chunk_milestones_counts (url : string)
    (request : list string -> RequestInit) (callback : bool) (total : Z)
    (chunks : list (list string)) :
  forall processed,
    fetches (chunk_milestones url request callback total chunks processed)
    = length chunks
    /\ progress_calls
         (chunk_milestones url request callback total chunks processed)
       = if callback then length chunks else 0%nat.
Proof.
  induction chunks as [|chunk rest IH]; intros processed.
  - destruct callback; split; reflexivity.
  - cbn [chunk_milestones length].
    destruct (IH (processed + Z.of_nat (length chunk))) as [IHf IHp].
    rewrite fetches_cons, progress_calls_cons, fetches_app, progress_calls_app.
    rewrite IHf, IHp. destruct callback; split; reflexivity.
Qed.

Lemma forEachChunk_thrown (R : Remote) (config : ValidKitConfig)
    (chunks : list (list string)) (total : Z) (format : ResponseFormat)
    (options : VerifyBatchOptions) :
  let url := base_url config +:+ "/api/v1/verify/bulk" in
  let request chunk :=
    chunkRequest config chunk format (batch_trace_id options)
      (batch_parent_id options) (default false (batch_debug options))
      (batch_share_signals options) in
  forall results processed s e s' t,
    forEachChunk R config chunks total format options results processed s
    = (Thrown e, s', t) ->
    exists k chunk,
      chunks !! k = Some chunk
      /\ milestones t
         = chunk_milestones url request (progress_callback options) total
             (take k chunks) processed
           ++ [Fetch url (request chunk) 0].
Proof.
  intros url request.
  induction chunks as [|chunk rest IH]; intros results processed s e s' t Hrun.
  - cbn in Hrun. discriminate.
  - cbn [forEachChunk] in Hrun. unfold bind at 1 in Hrun.
    destruct (processBatchChunk R config chunk format _ _ _ _ s)
      as [[o1 s1] t1] eqn:E1.
    apply processBatchChunk_run in E1 as (Hnd1 & Hm & _).
    destruct o1 as [chunkResults | e1 |]; [| |contradiction].
    + unfold bind in Hrun.
      destruct (progress_callback options) eqn:Hcb; cbn in Hrun;
        destruct (forEachChunk R config rest total format options _ _ s1)
          as [[o2 s2] t2] eqn:E2;
        inversion Hrun; subst o2 s2 t; clear Hrun;
        apply IH in E2 as (k & chunk' & Hk & Hmil);
        exists (S k), chunk'; (split; [exact Hk|]);
        rewrite !milestones_app, ?milestones_cons, Hm, Hmil;
        reflexivity.
    + inversion Hrun; subst e1 s1 t1. exists 0%nat, chunk.
      split; [reflexivity | exact Hm].
Qed.

(** X14.  A chunked batch that throws has stopped at the first chunk
    that failed: the chunks before it were requested and reported to
    the progress callback in order, the failing chunk was requested and
    not reported, and no later chunk was requested.  The results of the
    chunks that succeeded are not returned. *)
Theorem chunked_batch_stops_at_failure (R : Remote) (config : ValidKitConfig)
    (emails : list string) (options : VerifyBatchOptions) (s s' : Server R)
    (e : Exn) (t : list Event) :
  let n := Z.of_nat (length emails) in
  let chunkSize :=
    default (default_chunk_size config) (batch_chunk_size options) in
  let c := Z.to_nat chunkSize in
  let count := Z.to_nat (ceil_div n chunkSize) in
  let url := base_url config +:+ "/api/v1/verify/bulk" in
  let request chunk :=
    chunkRequest config chunk (default COMPACT (batch_format options))
      (batch_trace_id options) (batch_parent_id options)
      (default false (batch_debug options)) (batch_share_signals options) in
  0 < chunkSize ->
  chunkSize < n <= 10000 ->
  verifyBatch R config (Some emails) options s = (Thrown e, s', t) ->
  exists k,
    (k < count)%nat
    /\ milestones t
       = chunk_milestones url request (progress_callback options) n
           (spec_chunk emails c <$> seq 0 k) 0
         ++ [Fetch url (request (spec_chunk emails c k)) 0]
    /\ fetches (milestones t) = S k
    /\ progress_calls (milestones t)
       = if progress_callback options then k else 0%nat.
Proof.
  intros n chunkSize c count url request Hpos [Hlt Hle] Hrun.
  assert (Hc : (0 < c)%nat) by lia.
  assert (Hcs : chunkSize = Z.of_nat c) by lia.
  assert (Hchunks : chunks_from emails c 0 = spec_chunk emails c <$> seq 0 count).
  { unfold chunks_from, chunk_count. rewrite Nat.sub_0_r, <- Hcs. reflexivity. }
  assert (Harray : chunkArray emails chunkSize = Some (chunks_from emails c 0)).
  { unfold chunkArray. rewrite Hcs.
    apply (chunkArray_loop_spec emails c Hc (length emails) 0). lia. }
  unfold verifyBatch, MAX_BATCH_SIZE in Hrun. fold n chunkSize in Hrun.
  destruct (Z.eqb_spec n 0); [lia|].
  destruct (Z.gtb_spec n 10000); [lia|].
  destruct (Z.leb_spec n chunkSize); [lia|].
  rewrite Harray, Hchunks in Hrun. unfold bind in Hrun.
  destruct (forEachChunk R config _ n _ options ∅ 0 s)
    as [[o1 s1] t1] eqn:Hloop.
  destruct o1 as [r | e1 |]; cbn in Hrun; inversion Hrun; subst e1 s1 t1.
  apply forEachChunk_thrown in Hloop as (k & chunk & Hk & Hmil).
  rewrite list_lookup_fmap in Hk.
  destruct (seq 0 count !! k) as [k'|] eqn:Hseq; [|discriminate].
  apply lookup_seq in Hseq as [-> Hklt]. cbn in Hk. inversion Hk; subst chunk.
  rewrite <- fmap_take, take_seq in Hmil.
  replace (k `min` count)%nat with k in Hmil by lia.
  exists k. split; [exact Hklt|]. split; [exact Hmil|].
  rewrite Hmil, fetches_app, progress_calls_app.
  rewrite (proj1 (chunk_milestones_counts _ _ _ _ _ _)),
    (proj2 (chunk_milestones_counts _ _ _ _ _ _)), length_fmap, length_seq.
  rewrite fetches_cons, progress_calls_cons. cbn.
  split; [lia|]. destruct (progress_callback options); lia.
Qed.

Lemma chunked_batch_stops_at_failure_witness :
  0 < 2 /\ 2 < Z.of_nat (length three_emails) <= 10000
  /\ exists k,
       (k < 2)%nat
       /\ fetches
            (milestones
               [Fetch "https://api.validkit.com/api/v1/verify/bulk"
                  (chunkRequest defaultConfig
                     ["ada@example.com"; "bob@example.com"]
                     COMPACT None None false None) 0;
                Progress 2 3;
                Fetch "https://api.validkit.com/api/v1/verify/bulk"
                  (chunkRequest defaultConfig ["cyd@example.com"]
                     COMPACT None None false None) 0]) = S k.
Proof.
  assert (H1 : 0 < 2) by lia.
  assert (H2 : 2 < Z.of_nat (length three_emails) <= 10000) by (cbn; lia).
  assert (H3 : verifyBatch scripted defaultConfig (Some three_emails)
                 chunks_of_two
                 ([ok_json (indexed [compact_valid; compact_valid]);
                   sample_401], 0)
               = (Thrown (Typed (InvalidAPIKeyError "Invalid API key" None)),
                  ([], 0),
                  [Fetch "https://api.validkit.com/api/v1/verify/bulk"
                     (chunkRequest defaultConfig
                        ["ada@example.com"; "bob@example.com"]
                        COMPACT None None false None) 0;
                   Progress 2 3;
                   Fetch "https://api.validkit.com/api/v1/verify/bulk"
                     (chunkRequest defaultConfig ["cyd@example.com"]
                        COMPACT None None false None) 0]))
    by reflexivity.
  split; [exact H1|]. split; [exact H2|].
  destruct (chunked_batch_stops_at_failure scripted defaultConfig three_emails
              chunks_of_two _ _ _ _ H1 H2 H3) as (k & Hk & _ & Hf & _).
  exists k. split; [exact Hk | exact Hf].
Defined.

(** ** Chunk sizes *)

Lemma chunkArray_loop_stuck {A} (array : list A) (chunkSize : Z) :
  chunkSize <= 0 ->
  forall fuel i,
    i < Z.of_nat (length array) ->
    chunkArray_loop fuel array chunkSize i = None.
Proof.
  intros Hcs. induction fuel as [|fuel IH]; intros i Hi.
  - cbn. destruct (Z.ltb_spec i (Z.of_nat (length array))); [reflexivity | lia].
  - cbn [chunkArray_loop].
    destruct (Z.ltb_spec i (Z.of_nat (length array))); [|lia].
    rewrite IH by lia. reflexivity.
Qed.

(** X15.  With a chunk size that is zero or negative, on a list longer
    than it, the loop of [chunkArray] never ends: its index does not
    grow, so no number of rounds completes it.  A batch given such a
    chunk size therefore never settles, and it makes no call. *)
Theorem verifyBatch_chunk_size_not_positive (R : Remote)
    (config : ValidKitConfig) (emails : list string)
    (options : VerifyBatchOptions) (s : Server R) :
  let chunkSize :=
    default (default_chunk_size config) (batch_chunk_size options) in
  chunkSize <= 0 ->
  0 < Z.of_nat (length emails) <= 10000 ->
  (forall fuel, chunkArray_loop fuel emails chunkSize 0 = None)
  /\ verifyBatch R config (Some emails) options s = (Diverged, s, []).
Proof.
  intros chunkSize Hcs [Hpos Hle].
  assert (Hstuck : forall fuel, chunkArray_loop fuel emails chunkSize 0 = None).
  { intros fuel. apply chunkArray_loop_stuck; lia. }
  split; [exact Hstuck|].
  unfold verifyBatch, MAX_BATCH_SIZE. fold chunkSize.
  destruct (Z.eqb_spec (Z.of_nat (length emails)) 0); [lia|].
  destruct (Z.gtb_spec (Z.of_nat (length emails)) 10000); [lia|].
  destruct (Z.leb_spec (Z.of_nat (length emails)) chunkSize); [lia|].
  unfold chunkArray. rewrite Hstuck. reflexivity.
Qed.

Lemma verifyBatch_chunk_size_not_positive_witness :
  0 <= 0 /\ 0 < Z.of_nat (length three_emails) <= 10000
  /\ verifyBatch scripted defaultConfig (Some three_emails) chunks_of_zero
       ([ok_json (indexed [compact_valid])], 0)
     = (Diverged, ([ok_json (indexed [compact_valid])], 0), []).
Proof.
  assert (H1 : 0 <= 0) by lia.
  assert (H2 : 0 < Z.of_nat (length three_emails) <= 10000) by (cbn; lia).
  split; [exact H1|]. split; [exact H2|].
  exact (proj2 (verifyBatch_chunk_size_not_positive scripted defaultConfig
                  three_emails chunks_of_zero
                  ([ok_json (indexed [compact_valid])], 0) H1 H2)).
Defined.

(** X16.  With a positive chunk size [chunkArray] ends on every array,
    within [length array] rounds.  Its chunks, concatenated, are the
    array; there are [ceil (length / chunkSize)] of them, none empty and
    none longer than [chunkSize], and every chunk but the last has
    exactly [chunkSize] elements. *)
Theorem chunkArray_partition {A} (array : list A) (chunkSize : Z) :
  0 < chunkSize ->
  exists chunks,
    chunkArray array chunkSize = Some chunks
    /\ (forall fuel, (length array <= fuel)%nat ->
        chunkArray_loop fuel array chunkSize 0 = Some chunks)
    /\ concat chunks = array
    /\ Z.of_nat (length chunks) = ceil_div (Z.of_nat (length array)) chunkSize
    /\ Forall (fun chunk => 0 < Z.of_nat (length chunk) <= chunkSize) chunks
    /\ (forall k chunk,
        chunks !! k = Some chunk ->
        (S k < length chunks)%nat ->
        Z.of_nat (length chunk) = chunkSize).
Proof.
  intros Hpos. set (c := Z.to_nat chunkSize).
  assert (Hc : (0 < c)%nat) by lia.
  assert (Hcs : chunkSize = Z.of_nat c) by lia.
  assert (Hloop : forall fuel, (length array <= fuel)%nat ->
            chunkArray_loop fuel array chunkSize 0
            = Some (chunks_from array c 0)).
  { intros fuel Hfuel. rewrite Hcs.
    apply (chunkArray_loop_spec array c Hc fuel 0). lia. }
  assert (Hlen : Z.of_nat (length (chunks_from array c 0))
                 = ceil_div (Z.of_nat (length array)) chunkSize).
  { unfold chunks_from, chunk_count.
    rewrite length_fmap, length_seq, Nat.sub_0_r, <- Hcs.
    pose proof (ceil_div_nonneg (Z.of_nat (length array)) chunkSize Hpos).
    lia. }
  exists (chunks_from array c 0).
  split; [apply Hloop; lia|]. split; [exact Hloop|].
  split; [apply (chunks_from_concat array c Hc 0)|].
  split; [exact Hlen|]. split.
  - eapply Forall_impl; [apply (chunks_from_lengths array c Hc 0)|].
    intros chunk Hchunk. cbn beta in Hchunk. lia.
  - intros k chunk Hk Hlast.
    pose proof (ceil_div_bounds (Z.of_nat (length array)) chunkSize Hpos)
      as Hbounds.
    assert (Hfull : (k * c + c <= length array)%nat) by nia.
    unfold chunks_from in Hk. rewrite list_lookup_fmap in Hk.
    destruct (seq 0 _ !! k) as [k'|] eqn:Hseq; [|discriminate].
    apply lookup_seq in Hseq as [-> _]. cbn in Hk. inversion Hk.
    rewrite length_take, length_drop. lia.
Qed.

Lemma chunkArray_partition_witness :
  0 < 2
  /\ exists chunks,
       chunkArray three_emails 2 = Some chunks
       /\ concat chunks = three_emails
       /\ Z.of_nat (length chunks) = 2.
Proof.
  assert (H : 0 < 2) by lia.
  split; [exact H|].
  destruct (chunkArray_partition three_emails 2 H)
    as (chunks & Hchunks & _ & Hconcat & Hlen & _).
  exists chunks. split; [exact Hchunks|]. split; [exact Hconcat | exact Hlen].
Defined.

(** ** The headers of every call *)

Lemma baseHeaders_credentials (config : ValidKitConfig) :
  carries_credentials config (baseHeaders config).
Proof. unfold carries_credentials, baseHeaders. repeat split; lookup_keys. Qed.

Lemma requestHeaders_credentials (config : ValidKitConfig)
    (trace_id parent_id : option string) :
  carries_credentials config (requestHeaders config trace_id parent_id).
Proof.
  unfold carries_credentials, requestHeaders, baseHeaders.
  destruct (truthy_header trace_id), (truthy_header parent_id);
    repeat split; lookup_keys.
Qed.

Lemma attempts_trace_authorized (config : ValidKitConfig) (url : string)
    (options : RequestInit) (delays : list Z) :
  carries_credentials config (req_headers options) ->
  forall retries,
    Forall (authorized config) (attempts_trace url options retries delays).
Proof.
  intros Hcred. induction delays as [|d ds IH]; intros retries.
  - constructor; [exact Hcred | constructor].
  - cbn [attempts_trace]. constructor; [exact Hcred|].
    constructor; [exact I | apply IH].
Qed.

Lemma makeRequest_authorized (R : Remote) (config : ValidKitConfig)
    (endpoint : string) (options : RequestInit) (s : Server R) :
  carries_credentials config (req_headers options) ->
  Forall (authorized config) (makeRequest R config endpoint options 0 s).2.
Proof.
  intros Hcred.
  destruct (makeRequest R config endpoint options 0 s) as [[o s'] t] eqn:E.
  unfold makeRequest in E.
  apply makeRequest_loop_shape in E as (delays & _ & -> & _); [|lia].
  apply attempts_trace_authorized. exact Hcred.
Qed.

Lemma passes_data_trace {S : Type}
    (run : Outcome ResponseData * S * list Event) :
  (passes_data run).2 = run.2.
Proof. destruct run as [[o s'] t]. reflexivity. Qed.

Lemma processBatchChunk_authorized (R : Remote) (config : ValidKitConfig)
    (emails : list string) (format : ResponseFormat)
    (trace_id parent_id : option string) (debug : bool)
    (share_signals : option bool) (s : Server R) :
  Forall (authorized config)
    (processBatchChunk R config emails format trace_id parent_id debug
       share_signals s).2.
Proof.
  destruct (processBatchChunk R config emails format trace_id parent_id debug
              share_signals s) as [[o s'] t] eqn:E.
  apply processBatchChunk_run in E as (_ & _ & o1 & Hreq & _).
  pose proof (makeRequest_authorized R config "/api/v1/verify/bulk"
                (chunkRequest config emails format trace_id parent_id debug
                   share_signals) s
                (requestHeaders_credentials config trace_id parent_id)) as H.
  rewrite Hreq in H. exact H.
Qed.

Lemma forEachChunk_authorized (R : Remote) (config : ValidKitConfig)
    (chunks : list (list string)) (total : Z) (format : ResponseFormat)
    (options : VerifyBatchOptions) :
  forall results processed s,
    Forall (authorized config)
      (forEachChunk R config chunks total format options results processed s).2.
Proof.
  induction chunks as [|chunk rest IH]; intros results processed s.
  - constructor.
  - cbn [forEachChunk]. unfold bind at 1.
    pose proof (processBatchChunk_authorized R config chunk format
                  (batch_trace_id options) (batch_parent_id options)
                  (default false (batch_debug options))
                  (batch_share_signals options) s) as Hchunk.
    destruct (processBatchChunk R config chunk format _ _ _ _ s)
      as [[o1 s1] t1].
    cbn [snd] in Hchunk.
    destruct o1 as [chunkResults | e |]; [|exact Hchunk|exact Hchunk].
    unfold bind.
    destruct (progress_callback options); cbn;
      match goal with
      | |- context [forEachChunk R config rest total format options ?r ?p s1] =>
          pose proof (IH r p s1) as Hrest;
          destruct (forEachChunk R config rest total format options r p s1)
            as [[o2 s2] t2]
      end; cbn [snd] in *;
      apply Forall_app; split; try exact Hchunk;
      repeat (constructor; try exact I); exact Hrest.
Qed.

(** X17.  Every call that an operation of the client makes, retries and
    all chunks of a batch included, carries the bearer credential of the
    client, the JSON content type, the user agent and the two SDK
    headers.  The tracing ids of the caller never replace them. *)
Theorem requests_carry_credentials (R : Remote) (config : ValidKitConfig)
    (s : Server R) :
  (forall email options,
     Forall (authorized config) (verifyEmail R config email options s).2)
  /\ (forall emails options,
      Forall (authorized config) (verifyBatch R config emails options s).2)
  /\ (forall emails options,
      Forall (authorized config) (verifyBatchAgent R config emails options s).2)
  /\ (forall emails options,
      Forall (authorized config) (verifyBatchAsync R config emails options s).2)
  /\ (forall jobId,
      Forall (authorized config) (getBatchJob R config jobId s).2
      /\ Forall (authorized config) (getBatchResults R config jobId s).2
      /\ Forall (authorized config) (cancelBatchJob R config jobId s).2).
Proof.
  split; [|split; [|split; [|split]]].
  - intros email options.
    destruct (String.eqb_spec email "") as [-> | Hne]; [constructor|].
    rewrite (verifyEmail_run R config email options s Hne).
    pose proof (makeRequest_authorized R config "/api/v1/verify"
                  (verifyEmailRequest config email options) s
                  (requestHeaders_credentials config _ _)) as H.
    destruct (makeRequest R config _ _ 0 s) as [[o s'] t]. cbn [snd] in H.
    destruct o as [response | e |]; try exact H.
    destruct (verifyEmail_result _ _); exact H.
  - intros [emails|] options; [|constructor].
    unfold verifyBatch.
    destruct (Z.of_nat (length emails) =? 0); [constructor|].
    destruct (Z.of_nat (length emails) >? MAX_BATCH_SIZE); [constructor|].
    destruct (Z.of_nat (length emails) <=? _);
      [apply processBatchChunk_authorized|].
    destruct (chunkArray emails _) as [chunks|]; [|constructor].
    unfold bind.
    pose proof (forEachChunk_authorized R config chunks
                  (Z.of_nat (length emails))
                  (default COMPACT (batch_format options)) options ∅ 0 s) as H.
    destruct (forEachChunk R config chunks _ _ options ∅ 0 s) as [[o s'] t].
    cbn [snd] in H. destruct o; cbn; rewrite ?app_nil_r; exact H.
  - intros [emails|] options; [|constructor].
    unfold verifyBatchAgent.
    destruct (Z.of_nat (length emails) =? 0); [constructor|].
    rewrite bind_data, passes_data_trace.
    apply makeRequest_authorized, requestHeaders_credentials.
  - intros [emails|] options; [|constructor].
    unfold verifyBatchAsync.
    destruct (Z.of_nat (length emails) =? 0); [constructor|].
    rewrite bind_data, passes_data_trace.
    apply makeRequest_authorized, requestHeaders_credentials.
  - intros jobId.
    unfold getBatchJob, getBatchResults, cancelBatchJob.
    destruct (negb (truthy_str jobId));
      [repeat split; constructor|].
    rewrite !bind_data, !passes_data_trace.
    repeat split; apply makeRequest_authorized, baseHeaders_credentials.
Qed.

(** ** TypeErrors of a chunk *)





